(** * HIR MVP: the event lifecycle and its audit trail

    A shallow embedding of [app/database.py], [app/schemas.py] and the request
    handlers of [app/main.py].  The three keyed tables are finite maps from
    the primary key to the row, the log table is a list in insertion order,
    and the handlers are written in a small state-and-exception monad whose
    state holds the database and the number of clock readings and random
    tokens consumed so far. *)

From Stdlib Require Import ZArith NArith String Ascii List Lia.
From Stdlib Require Import DecimalString DecimalN.
From stdpp Require Import base option list strings gmap fin_maps sorting.

Local Open Scope string_scope.
Local Open Scope list_scope.

(** ** Values *)

(** A UTC instant: the calendar year (what [datetime.year] returns) and the
    microseconds elapsed since that year began.  Instants are compared
    lexicographically. *)
Record datetime := mk_datetime { dt_year : N; dt_micros : N }.

Definition dt_le (a b : datetime) : Prop :=
  (dt_year a < dt_year b)%N ∨ (dt_year a = dt_year b ∧ (dt_micros a <= dt_micros b)%N).

(** JSON payloads, as stored in the [JSON] columns. *)
Unset Elimination Schemes.
Inductive json :=
| JNull
| JInt (z : Z)
| JStr (s : string)
| JList (l : list json)
| JDict (kv : list (string * json)).
Set Elimination Schemes.

Definition json_opt_str (o : option string) : json :=
  match o with Some s => JStr s | None => JNull end.

(** ** Tables ([app/database.py]) *)

Module HEvent.
Record t := mk {
  h_id : string;
  status : string;
  harm_type : string;
  harm_domain : string;
  description : string;
  severity : string;
  confidence : string;
  affected_scope : string;
  affected_count : option Z;
  horizon : string;
  source_type : string;
  source_id : option string;
  metadata_ : option json;
  created_at : datetime;
  updated_at : datetime
}.

(** [event.status = s; event.updated_at = now] *)
Definition touch (s : string) (now : datetime) (e : t) : t :=
  mk (h_id e) s (harm_type e) (harm_domain e) (description e) (severity e)
     (confidence e) (affected_scope e) (affected_count e) (horizon e)
     (source_type e) (source_id e) (metadata_ e) (created_at e) now.
End HEvent.

Module HStop.
Record t := mk {
  stop_id : string;
  h_id : string;
  measure : string;
  status : string;
  scope_target : option string;
  reason : string;
  initiated_by : string;
  review_deadline : datetime;
  released_at : option datetime;
  release_reason : option string;
  created_at : datetime
}.

(** [db_stop.status = "released"; db_stop.released_at = now;
    db_stop.release_reason = why] *)
Definition release (now : datetime) (why : string) (s : t) : t :=
  mk (stop_id s) (h_id s) (measure s) "released" (scope_target s) (reason s)
     (initiated_by s) (review_deadline s) (Some now) (Some why) (created_at s).
End HStop.

Module Recovery.
Record t := mk {
  recovery_id : string;
  h_id : string;
  status : string;
  affected_count : Z;
  measures : option (list json);
  notes : option string;
  created_at : datetime;
  updated_at : datetime
}.

Definition set_status (v : string) (r : t) : t :=
  mk (recovery_id r) (h_id r) v (affected_count r) (measures r) (notes r)
     (created_at r) (updated_at r).
Definition set_measures (v : list json) (r : t) : t :=
  mk (recovery_id r) (h_id r) (status r) (affected_count r) (Some v) (notes r)
     (created_at r) (updated_at r).
Definition set_notes (v : string) (r : t) : t :=
  mk (recovery_id r) (h_id r) (status r) (affected_count r) (measures r) (Some v)
     (created_at r) (updated_at r).
Definition set_updated_at (v : datetime) (r : t) : t :=
  mk (recovery_id r) (h_id r) (status r) (affected_count r) (measures r) (notes r)
     (created_at r) v.
End Recovery.

Module ObserveLog.
Record t := mk {
  id : Z;
  request_id : string;
  module : string;
  action : string;
  target_id : option string;
  actor : option string;
  details : option json;
  timestamp : datetime
}.
End ObserveLog.

(** ** Request bodies ([app/schemas.py]) *)

Module HEventCreate.
Record t := mk {
  harm_type : string;
  harm_domain : string;
  description : string;
  severity : string;
  confidence : string;
  affected_scope : string;
  affected_count : option Z;
  horizon : string;
  source_type : string;
  source_id : option string;
  metadata : option json
}.
End HEventCreate.

Module HEventStatusUpdate.
Record t := mk { status : string; reason : string }.
End HEventStatusUpdate.

Module HStopCreate.
Record t := mk {
  h_id : string;
  measure : string;
  scope_target : option string;
  reason : string;
  initiated_by : string;
  review_deadline : datetime
}.
End HStopCreate.

Module HStopRelease.
Record t := mk { reason : string; released_by : string }.
End HStopRelease.

Module RecoveryCreate.
Record t := mk {
  h_id : string;
  affected_count : Z;
  measures : option (list json);
  notes : option string
}.
End RecoveryCreate.

Module RecoveryUpdate.
Record t := mk {
  status : option string;
  measures : option (list json);
  notes : option string
}.
End RecoveryUpdate.

(** ** The database and the world around it *)

Record DB := mk_db {
  h_events : gmap string HEvent.t;
  h_stops : gmap string HStop.t;
  recoveries : gmap string Recovery.t;
  observe_logs : list ObserveLog.t
}.

Definition empty_db : DB := mk_db ∅ ∅ ∅ [].

Definition with_events (m : gmap string HEvent.t) (d : DB) : DB :=
  mk_db m (h_stops d) (recoveries d) (observe_logs d).
Definition with_stops (m : gmap string HStop.t) (d : DB) : DB :=
  mk_db (h_events d) m (recoveries d) (observe_logs d).
Definition with_recoveries (m : gmap string Recovery.t) (d : DB) : DB :=
  mk_db (h_events d) (h_stops d) m (observe_logs d).
Definition with_logs (l : list ObserveLog.t) (d : DB) : DB :=
  mk_db (h_events d) (h_stops d) (recoveries d) l.

(** [ticks] counts the calls of [datetime.now] made so far, [draws] the calls
    of [uuid.uuid4]. *)
Record World := mk_world { db : DB; ticks : nat; draws : nat }.

Definition init_world : World := mk_world empty_db 0 0.

(** ** Exceptions and the handler monad *)

(** [HTTPException] is what the handlers raise themselves, [IntegrityError]
    what the table raises on a duplicate primary key,
    [RequestValidationError] what the framework raises on a query parameter
    outside its declared bounds (status 422), and [OverflowError] what the
    database driver raises when it is given an integer that does not fit
    the 64 bits of an SQLite INTEGER (status 500). *)
Inductive error :=
| HTTPException (status_code : Z) (detail : string)
| IntegrityError
| RequestValidationError
| OverflowError.

Inductive outcome (A : Type) :=
| Ok (a : A)
| Raise (e : error).
Arguments Ok {A} a.
Arguments Raise {A} e.

Definition M (A : Type) : Type := World → outcome A * World.

Global Instance M_ret : MRet M := λ A a w, (Ok a, w).
Global Instance M_bind : MBind M := λ A B f m w,
  match m w with
  | (Ok a, w') => f a w'
  | (Raise e, w') => (Raise e, w')
  end.

Definition raise {A} (e : error) : M A := λ w, (Raise e, w).

(** The range of an SQLite INTEGER. *)
Definition fits_int64 (z : Z) : bool :=
  (-9223372036854775808 <=? z)%Z && (z <=? 9223372036854775807)%Z.

(** What an [Integer] column can take: NULL, or an integer of 64 bits. *)
Definition fits_integer (o : option Z) : bool :=
  match o with Some z => fits_int64 z | None => true end.

Arguments fits_int64 : simpl never.
Arguments fits_integer : simpl never.

(** The driver binds the value of an [Integer] column for the INSERT and
    refuses a Python int outside the range; nothing has been written then. *)
Definition bind_integer (o : option Z) : M unit :=
  if fits_integer o then mret tt else raise OverflowError.

Definition query : M DB := λ w, (Ok (db w), w).
Definition commit (d : DB) : M unit := λ w, (Ok tt, mk_world d (ticks w) (draws w)).

(** ** Formatting *)

(** [f"{n}"] for a non-negative integer. *)
Definition fmt_d (n : N) : string := NilEmpty.string_of_uint (N.to_uint n).

Fixpoint zeros (k : nat) : string :=
  match k with O => EmptyString | S k => String "0" (zeros k) end.

(** [f"{n:05d}"]: at least five characters, padded with zeros on the left. *)
Definition fmt_05d (n : N) : string :=
  let s := fmt_d n in zeros (5 - String.length s) +:+ s.

(** [f"{prefix}-{year}-{count:05d}"] *)
Definition fmt_id (prefix : string) (year count : N) : string :=
  prefix +:+ "-" +:+ fmt_d year +:+ "-" +:+ fmt_05d count.

(** ** Handlers ([app/main.py]) *)

Section Handlers.

(** The readings of the system clock and the random UUIDs, in the order in
    which the process asks for them. *)
Variable clock : nat → datetime.
Variable uuid4 : nat → string.

(** [datetime.now(timezone.utc)] *)
Definition now : M datetime := λ w,
  (Ok (clock (ticks w)), mk_world (db w) (S (ticks w)) (draws w)).

(** [str(uuid.uuid4())] *)
Definition uuid4_str : M string := λ w,
  (Ok (uuid4 (draws w)), mk_world (db w) (ticks w) (S (draws w))).

(** *** Helpers *)

Definition generate_h_id : M string :=
  t ← now;
  d ← query;
  mret (fmt_id "HIR" (dt_year t) (N.of_nat (size (h_events d)) + 1)).

Definition generate_stop_id : M string :=
  t ← now;
  d ← query;
  mret (fmt_id "STOP" (dt_year t) (N.of_nat (size (h_stops d)) + 1)).

Definition generate_recovery_id : M string :=
  t ← now;
  d ← query;
  mret (fmt_id "R0" (dt_year t) (N.of_nat (size (recoveries d)) + 1)).

(** The integer primary key of a new log row: one more than the largest
    key in the table. *)
Definition next_rowid (l : list ObserveLog.t) : Z :=
  1 + foldr (λ e m, Z.max (ObserveLog.id e) m) 0%Z l.

Definition log_action (module action : string) (target_id actor : option string)
    (details : option json) : M unit :=
  u ← uuid4_str;
  d ← query;
  ts ← now;
  let entry :=
    ObserveLog.mk (next_rowid (observe_logs d)) (substring 0 8 u) module action
                  target_id actor details ts in
  commit (with_logs (observe_logs d ++ [entry]) d).

(** [db.add(row)] followed by the flush of its INSERT: a second row with
    the same primary key is refused by the table and the transaction is
    abandoned. *)
Definition add_row {V} (k : string) (v : V) (tbl : gmap string V) : M (gmap string V) :=
  match tbl !! k with
  | Some _ => raise IntegrityError
  | None => mret (<[k := v]> tbl)
  end.

(** *** H-Event *)

(** [status], [created_at] and [updated_at] are not given by the handler:
    the column defaults supply them when the row is inserted, each time
    default reading the clock for itself. *)
Definition create_event (event : HEventCreate.t) : M HEvent.t :=
  h_id ← generate_h_id;
  d ← query;
  created ← now;
  updated ← now;
  let db_event :=
    HEvent.mk h_id "registered"
      (HEventCreate.harm_type event) (HEventCreate.harm_domain event)
      (HEventCreate.description event) (HEventCreate.severity event)
      (HEventCreate.confidence event) (HEventCreate.affected_scope event)
      (HEventCreate.affected_count event) (HEventCreate.horizon event)
      (HEventCreate.source_type event) (HEventCreate.source_id event)
      (HEventCreate.metadata event) created updated in
  bind_integer (HEventCreate.affected_count event);;
  tbl ← add_row h_id db_event (h_events d);
  commit (with_events tbl d);;
  log_action "h_event" "created" (Some h_id) (Some (HEventCreate.source_type event))
    (Some (JDict [("severity", JStr (HEventCreate.severity event))]));;
  mret db_event.

Definition get_event (h_id : string) : M HEvent.t :=
  d ← query;
  match h_events d !! h_id with
  | None => raise (HTTPException 404 ("H-Event " +:+ h_id +:+ " not found"))
  | Some event => mret event
  end.

Definition update_event_status (h_id : string) (update : HEventStatusUpdate.t)
    : M HEvent.t :=
  d ← query;
  match h_events d !! h_id with
  | None => raise (HTTPException 404 ("H-Event " +:+ h_id +:+ " not found"))
  | Some event =>
      let old_status := HEvent.status event in
      t ← now;
      let event := HEvent.touch (HEventStatusUpdate.status update) t event in
      commit (with_events (<[h_id := event]> (h_events d)) d);;
      log_action "h_event" "status_updated" (Some h_id) None
        (Some (JDict [("old", JStr old_status);
                      ("new", JStr (HEventStatusUpdate.status update));
                      ("reason", JStr (HEventStatusUpdate.reason update))]));;
      mret event
  end.

(** *** H-Stop *)

(** The handler reads the clock for the event's [updated_at] before the
    commit; the stop's [created_at] default reads it at the insert. *)
Definition activate_stop (stop : HStopCreate.t) : M HStop.t :=
  d ← query;
  match h_events d !! HStopCreate.h_id stop with
  | None =>
      raise (HTTPException 404 ("H-Event " +:+ HStopCreate.h_id stop +:+ " not found"))
  | Some event =>
      stop_id ← generate_stop_id;
      t ← now;
      let event := HEvent.touch "h_stop_active" t event in
      created ← now;
      let db_stop :=
        HStop.mk stop_id (HStopCreate.h_id stop) (HStopCreate.measure stop) "active"
          (HStopCreate.scope_target stop) (HStopCreate.reason stop)
          (HStopCreate.initiated_by stop) (HStopCreate.review_deadline stop)
          None None created in
      tbl ← add_row stop_id db_stop (h_stops d);
      commit (with_events (<[HStopCreate.h_id stop := event]> (h_events d))
                (with_stops tbl d));;
      log_action "h_stop" "activated" (Some stop_id) (Some (HStopCreate.initiated_by stop))
        (Some (JDict [("h_id", JStr (HStopCreate.h_id stop));
                      ("measure", JStr (HStopCreate.measure stop))]));;
      mret db_stop
  end.

Definition release_stop (stop_id : string) (release : HStopRelease.t) : M HStop.t :=
  d ← query;
  match h_stops d !! stop_id with
  | None => raise (HTTPException 404 ("H-Stop " +:+ stop_id +:+ " not found"))
  | Some db_stop =>
      if String.eqb (HStop.status db_stop) "released" then
        raise (HTTPException 400 ("H-Stop " +:+ stop_id +:+ " already released"))
      else
        t ← now;
        let db_stop := HStop.release t (HStopRelease.reason release) db_stop in
        let d1 := with_stops (<[stop_id := db_stop]> (h_stops d)) d in
        d2 ← match h_events d !! HStop.h_id db_stop with
             | Some event =>
                 if String.eqb (HEvent.status event) "h_stop_active" then
                   t' ← now;
                   mret (with_events
                           (<[HStop.h_id db_stop := HEvent.touch "investigating" t' event]>
                              (h_events d)) d1)
                 else mret d1
             | None => mret d1
             end;
        commit d2;;
        log_action "h_stop" "released" (Some stop_id) (Some (HStopRelease.released_by release))
          (Some (JDict [("reason", JStr (HStopRelease.reason release))]));;
        mret db_stop
  end.

(** *** R-0 recovery *)

Definition initiate_recovery (recovery : RecoveryCreate.t) : M Recovery.t :=
  d ← query;
  match h_events d !! RecoveryCreate.h_id recovery with
  | None =>
      raise (HTTPException 404
               ("H-Event " +:+ RecoveryCreate.h_id recovery +:+ " not found"))
  | Some event =>
      recovery_id ← generate_recovery_id;
      t ← now;
      let event := HEvent.touch "recovering" t event in
      created ← now;
      updated ← now;
      let db_recovery :=
        Recovery.mk recovery_id (RecoveryCreate.h_id recovery) "initiated"
          (RecoveryCreate.affected_count recovery) (RecoveryCreate.measures recovery)
          (RecoveryCreate.notes recovery) created updated in
      bind_integer (Some (RecoveryCreate.affected_count recovery));;
      tbl ← add_row recovery_id db_recovery (recoveries d);
      commit (with_events (<[RecoveryCreate.h_id recovery := event]> (h_events d))
                (with_recoveries tbl d));;
      log_action "r0" "initiated" (Some recovery_id) None
        (Some (JDict [("h_id", JStr (RecoveryCreate.h_id recovery));
                      ("affected", JInt (RecoveryCreate.affected_count recovery))]));;
      mret db_recovery
  end.

Definition update_recovery (recovery_id : string) (update : RecoveryUpdate.t)
    : M Recovery.t :=
  d ← query;
  match recoveries d !! recovery_id with
  | None => raise (HTTPException 404 ("Recovery " +:+ recovery_id +:+ " not found"))
  | Some db_recovery =>
      let r1 :=
        match RecoveryUpdate.status update with
        | Some ((String _ _) as v) => Recovery.set_status v db_recovery
        | _ => db_recovery
        end in
      let r2 :=
        match RecoveryUpdate.measures update with
        | Some ((_ :: _) as v) => Recovery.set_measures v r1
        | _ => r1
        end in
      let r3 :=
        match RecoveryUpdate.notes update with
        | Some ((String _ _) as v) => Recovery.set_notes v r2
        | _ => r2
        end in
      t ← now;
      let db_recovery := Recovery.set_updated_at t r3 in
      commit (with_recoveries (<[recovery_id := db_recovery]> (recoveries d)) d);;
      log_action "r0" "updated" (Some recovery_id) None
        (Some (JDict [("status", json_opt_str (RecoveryUpdate.status update))]));;
      mret db_recovery
  end.

End Handlers.

(** *** HIR-Observe *)

Global Instance dt_le_dec : RelDecision dt_le.
Proof. intros a b. unfold dt_le. apply _. Defined.

(** [ORDER BY timestamp DESC]: [a] may come before [b]. *)
Definition newest_first (a b : ObserveLog.t) : Prop :=
  dt_le (ObserveLog.timestamp b) (ObserveLog.timestamp a).

Global Instance newest_first_dec : RelDecision newest_first.
Proof. intros a b. unfold newest_first. apply _. Defined.

(** [LIMIT n] as SQLite reads it: a negative [n] is no limit at all. *)
Definition sql_limit {A} (n : Z) (l : list A) : list A :=
  if (n <? 0)%Z then l else take (Z.to_nat n) l.

(** [limit: int = Query(default=100, le=1000)]: the framework fills in the
    default and refuses a value above the bound before the handler runs; the
    driver refuses a limit below the 64-bit range when it binds it.  Among
    rows of equal timestamp the order is the engine's; the sort used here
    fixes one, and nothing below depends on which. *)
Definition get_logs (module target_id : option string) (limit : option Z) (d : DB)
    : outcome (list ObserveLog.t) :=
  let limit := default 100%Z limit in
  if (1000 <? limit)%Z then Raise RequestValidationError
  else if (limit <? -9223372036854775808)%Z then Raise OverflowError
  else
    let q := observe_logs d in
    let q := match module with
             | Some ((String _ _) as m) => filter (λ e, ObserveLog.module e = m) q
             | _ => q
             end in
    let q := match target_id with
             | Some ((String _ _) as t) => filter (λ e, ObserveLog.target_id e = Some t) q
             | _ => q
             end in
    Ok (sql_limit limit (merge_sort newest_first q)).

(** *** The list endpoints and the statistics *)

(** The rows of a keyed table, in the order the table hands them out. *)
Definition rows {V} (tbl : gmap string V) : list V := (map_to_list tbl).*2.

(** [ORDER BY created_at DESC]: [a] may come before [b]. *)
Definition latest_first {V} (created_at : V → datetime) (a b : V) : Prop :=
  dt_le (created_at b) (created_at a).

Global Instance latest_first_dec {V} (created_at : V → datetime) :
  RelDecision (latest_first created_at).
Proof. intros a b. unfold latest_first. apply _. Defined.

Definition list_events (status severity : option string) (d : DB) : list HEvent.t :=
  let q := rows (h_events d) in
  let q := match status with
           | Some ((String _ _) as v) => filter (λ e, HEvent.status e = v) q
           | _ => q
           end in
  let q := match severity with
           | Some ((String _ _) as v) => filter (λ e, HEvent.severity e = v) q
           | _ => q
           end in
  merge_sort (latest_first HEvent.created_at) q.

Definition list_stops (status : option string) (d : DB) : list HStop.t :=
  let q := rows (h_stops d) in
  let q := match status with
           | Some ((String _ _) as v) => filter (λ s, HStop.status s = v) q
           | _ => q
           end in
  merge_sort (latest_first HStop.created_at) q.

Definition list_recoveries (status : option string) (d : DB) : list Recovery.t :=
  let q := rows (recoveries d) in
  let q := match status with
           | Some ((String _ _) as v) => filter (λ r, Recovery.status r = v) q
           | _ => q
           end in
  merge_sort (latest_first Recovery.created_at) q.

(** [db.query(T).filter(P).count()] *)
Definition count {V} (P : V → Prop) `{∀ v, Decision (P v)} (tbl : gmap string V) : nat :=
  length (filter P (rows tbl)).

Module Stats.
Record by_severity := mk_by_severity {
  critical : nat;
  high : nat;
  medium : nat;
  low : nat
}.

Record by_status := mk_by_status {
  registered : nat;
  h_stop_active : nat;
  recovering : nat;
  resolved : nat
}.

Record t := mk {
  total_events : nat;
  active_stops : nat;
  active_recoveries : nat;
  events_by_severity : by_severity;
  events_by_status : by_status
}.
End Stats.

Definition get_stats (d : DB) : Stats.t :=
  Stats.mk
    (size (h_events d))
    (count (λ s, HStop.status s = "active") (h_stops d))
    (count (λ r, Recovery.status r ∈ ["initiated"; "in_progress"]) (recoveries d))
    (Stats.mk_by_severity
       (count (λ e, HEvent.severity e = "critical") (h_events d))
       (count (λ e, HEvent.severity e = "high") (h_events d))
       (count (λ e, HEvent.severity e = "medium") (h_events d))
       (count (λ e, HEvent.severity e = "low") (h_events d)))
    (Stats.mk_by_status
       (count (λ e, HEvent.status e = "registered") (h_events d))
       (count (λ e, HEvent.status e = "h_stop_active") (h_events d))
       (count (λ e, HEvent.status e = "recovering") (h_events d))
       (count (λ e, HEvent.status e = "resolved") (h_events d))).

(** *** The demo client ([demo.py]) *)

(** What [main] keeps of the responses it prints. *)
Record demo_report := mk_demo_report {
  seen_after_stop : HEvent.t;
  final_event : HEvent.t;
  final_stop : HStop.t;
  final_recovery : Recovery.t;
  final_stats : Stats.t;
  audit_trail : list ObserveLog.t
}.

(** A read-only endpoint, run against the database of the moment. *)
Definition serve {A} (f : DB → outcome A) : M A := λ w,
  (f (db w), w).

(** [main()]: the requests of the scenario, each with the ids that the
    earlier responses gave; [deadline] is the client's clock plus a day. *)
Definition demo_main (clock : nat → datetime) (uuid4 : nat → string)
    (deadline : datetime) : M demo_report :=
  event ← create_event clock uuid4
    (HEventCreate.mk "systemic" "ai_recommendation"
       "Recommendation algorithm promoting increasingly extreme content to users under 18. Pattern detected across 50,000+ accounts over 14 days. Correlated with 340% increase in self-harm related searches in affected cohort."
       "critical" "high" "population" (Some 50000%Z) "ongoing" "automated"
       (Some "monitor-fairness-v2") None);
  let h_id := HEvent.h_id event in
  stop ← activate_stop clock uuid4
    (HStopCreate.mk h_id "scope_reduction" (Some "recommendation-engine-v3")
       "Critical harm threshold exceeded. Recommendation amplification disabled for affected cohort pending review."
       "system" deadline);
  let stop_id := HStop.stop_id stop in
  seen ← get_event h_id;
  recovery ← initiate_recovery clock uuid4
    (RecoveryCreate.mk h_id 50000
       (Some [JDict [("type", JStr "access_restoration");
                     ("description", JStr "Reset recommendation profiles for affected accounts");
                     ("status", JStr "in_progress")];
              JDict [("type", JStr "emergency_aid");
                     ("description", JStr "Deploy mental health resources to affected users");
                     ("status", JStr "planned")];
              JDict [("type", JStr "public_acknowledgment");
                     ("description", JStr "Notify affected users about the issue and actions taken");
                     ("status", JStr "planned")]])
       (Some "Recovery initiated before investigation. Priority: stabilize affected users."));
  let recovery_id := Recovery.recovery_id recovery in
  recovery ← update_recovery clock uuid4 recovery_id
    (RecoveryUpdate.mk (Some "in_progress") None
       (Some "Recommendation profiles reset for 48,000 of 50,000 accounts. Mental health resources deployed."));
  stop ← release_stop clock uuid4 stop_id
    (HStopRelease.mk
       "Root cause identified: reward function weight on engagement-time was 3x higher than safety score. Weights rebalanced. New threshold added to H-Detect."
       "operator-lead");
  event ← update_event_status clock uuid4 h_id
    (HEventStatusUpdate.mk "resolved"
       "Root cause fixed. Recovery completed. New monitoring thresholds deployed.");
  stats ← serve (λ d, Ok (get_stats d));
  logs ← serve (get_logs None None (Some 20%Z));
  mret (mk_demo_report seen event stop recovery stats logs).

(** ** Properties to be stated *)

Definition is_digit (c : ascii) : bool :=
  (48 <=? nat_of_ascii c)%nat && (nat_of_ascii c <=? 57)%nat.

Fixpoint all_digits (s : string) : bool :=
  match s with
  | EmptyString => true
  | String c s => is_digit c && all_digits s
  end.

(** The shape [HIR-dddd-ddddd]: fourteen characters, four digits for the
    year and five for the sequence number. *)
Definition h_id_pattern (s : string) : bool :=
  (String.length s =? 14)%nat
  && String.eqb (substring 0 4 s) "HIR-"
  && all_digits (substring 4 4 s)
  && String.eqb (substring 8 1 s) "-"
  && all_digits (substring 9 5 s).

(** The rows of a table carry their own key, and every key was produced by
    the table's id generator with a sequence number no larger than the
    number of rows. *)
Definition ids_wf {V} (prefix : string) (key : V → string) (tbl : gmap string V) : Prop :=
  ∀ k v, tbl !! k = Some v →
    key v = k ∧ ∃ y c, k = fmt_id prefix y c ∧ (1 <= c <= N.of_nat (size tbl))%N.

Definition wf_db (d : DB) : Prop :=
  ids_wf "HIR" HEvent.h_id (h_events d)
  ∧ ids_wf "STOP" HStop.stop_id (h_stops d)
  ∧ ids_wf "R0" Recovery.recovery_id (recoveries d).

(** [evolves w0 w]: the service, started in world [w0], can be in world [w]
    after some sequence of requests, whether they succeeded or not. *)
Inductive evolves (clock : nat → datetime) (uuid4 : nat → string) (w0 : World)
    : World → Prop :=
| evolves_refl : evolves clock uuid4 w0 w0
| evolves_create_event w ev :
    evolves clock uuid4 w0 w → evolves clock uuid4 w0 (create_event clock uuid4 ev w).2
| evolves_update_event_status w h_id upd :
    evolves clock uuid4 w0 w →
    evolves clock uuid4 w0 (update_event_status clock uuid4 h_id upd w).2
| evolves_activate_stop w stop :
    evolves clock uuid4 w0 w → evolves clock uuid4 w0 (activate_stop clock uuid4 stop w).2
| evolves_release_stop w stop_id rel :
    evolves clock uuid4 w0 w →
    evolves clock uuid4 w0 (release_stop clock uuid4 stop_id rel w).2
| evolves_initiate_recovery w rc :
    evolves clock uuid4 w0 w →
    evolves clock uuid4 w0 (initiate_recovery clock uuid4 rc w).2
| evolves_update_recovery w recovery_id upd :
    evolves clock uuid4 w0 w →
    evolves clock uuid4 w0 (update_recovery clock uuid4 recovery_id upd w).2.

(** The worlds the service can be in when it starts on an empty database. *)
Definition reachable (clock : nat → datetime) (uuid4 : nat → string) : World → Prop :=
  evolves clock uuid4 init_world.

(** ** Notions used in the statements *)

(** [int(s)] for a string of decimal digits. *)
Definition int_of (s : string) : option N :=
  N.of_uint <$> NilEmpty.uint_of_string s.

(** Bounded checks by evaluation: [P] on [c], [c+1], ..., [c+n-1]. *)
Fixpoint all_from (P : N → bool) (c : N) (n : nat) : bool :=
  match n with
  | O => true
  | S k => P c && all_from P (N.succ c) k
  end.

Definition already_released (stop_id : string) : error :=
  HTTPException 400 ("H-Stop " +:+ stop_id +:+ " already released").

Definition event_not_found (h_id : string) : error :=
  HTTPException 404 ("H-Event " +:+ h_id +:+ " not found").

(** The log of [w'] is the log of [w] followed by one entry with the given
    module and action. *)
Definition appends_one (w w' : World) (module action : string) : Prop :=
  ∃ entry,
    observe_logs (db w') = observe_logs (db w) ++ [entry]
    ∧ ObserveLog.module entry = module
    ∧ ObserveLog.action entry = action.

(** An optional field that Python's [if field:] takes as not supplied:
    left out, or present with the empty value. *)
Definition blank {A} (empty : A) (o : option A) : Prop :=
  o = None ∨ o = Some empty.

(** The rows a query selects before they are ordered and cut. *)
Definition selected (module target_id : option string) (d : DB) : list ObserveLog.t :=
  let q := observe_logs d in
  let q := match module with
           | Some ((String _ _) as m) => filter (λ e, ObserveLog.module e = m) q
           | _ => q
           end in
  match target_id with
  | Some ((String _ _) as t) => filter (λ e, ObserveLog.target_id e = Some t) q
  | _ => q
  end.

(** ** What one request can do to the database *)

(** [entry] is the row that [log_action] adds to [d] for the given module,
    action and target. *)
Definition log_entry_for (d : DB) (entry : ObserveLog.t) (module action target : string)
    : Prop :=
  ObserveLog.id entry = next_rowid (observe_logs d)
  ∧ ObserveLog.module entry = module
  ∧ ObserveLog.action entry = action
  ∧ ObserveLog.target_id entry = Some target.

(** The effect of one request on the four tables: none at all when the
    request is refused, and otherwise one shape for each handler. *)
Inductive db_step : DB → DB → Prop :=
| db_step_refused d : db_step d d
| db_step_create_event d e entry :
    h_events d !! HEvent.h_id e = None →
    HEvent.status e = "registered" →
    log_entry_for d entry "h_event" "created" (HEvent.h_id e) →
    db_step d (mk_db (<[HEvent.h_id e := e]> (h_events d)) (h_stops d) (recoveries d)
                 (observe_logs d ++ [entry]))
| db_step_update_event_status d k e status t entry :
    h_events d !! k = Some e →
    log_entry_for d entry "h_event" "status_updated" k →
    db_step d (mk_db (<[k := HEvent.touch status t e]> (h_events d)) (h_stops d)
                 (recoveries d) (observe_logs d ++ [entry]))
| db_step_activate_stop d s e t entry :
    h_events d !! HStop.h_id s = Some e →
    h_stops d !! HStop.stop_id s = None →
    HStop.status s = "active" →
    HStop.released_at s = None →
    HStop.release_reason s = None →
    log_entry_for d entry "h_stop" "activated" (HStop.stop_id s) →
    db_step d (mk_db (<[HStop.h_id s := HEvent.touch "h_stop_active" t e]> (h_events d))
                 (<[HStop.stop_id s := s]> (h_stops d)) (recoveries d)
                 (observe_logs d ++ [entry]))
| db_step_release_stop d k s t why events' entry :
    h_stops d !! k = Some s →
    HStop.status s ≠ "released" →
    (events' = h_events d
     ∨ ∃ e t', h_events d !! HStop.h_id s = Some e
               ∧ HEvent.status e = "h_stop_active"
               ∧ events' = <[HStop.h_id s := HEvent.touch "investigating" t' e]>
                             (h_events d)) →
    log_entry_for d entry "h_stop" "released" k →
    db_step d (mk_db events' (<[k := HStop.release t why s]> (h_stops d)) (recoveries d)
                 (observe_logs d ++ [entry]))
| db_step_initiate_recovery d r e t entry :
    h_events d !! Recovery.h_id r = Some e →
    recoveries d !! Recovery.recovery_id r = None →
    Recovery.status r = "initiated" →
    log_entry_for d entry "r0" "initiated" (Recovery.recovery_id r) →
    db_step d (mk_db (<[Recovery.h_id r := HEvent.touch "recovering" t e]> (h_events d))
                 (h_stops d) (<[Recovery.recovery_id r := r]> (recoveries d))
                 (observe_logs d ++ [entry]))
| db_step_update_recovery d k r r' entry :
    recoveries d !! k = Some r →
    Recovery.recovery_id r' = Recovery.recovery_id r →
    Recovery.h_id r' = Recovery.h_id r →
    Recovery.affected_count r' = Recovery.affected_count r →
    Recovery.created_at r' = Recovery.created_at r →
    log_entry_for d entry "r0" "updated" k →
    db_step d (mk_db (h_events d) (h_stops d) (<[k := r']> (recoveries d))
                 (observe_logs d ++ [entry])).

(** ** What holds of every database the service can reach *)

(** A stop is either active and carries no release data, or released and
    carries both the time and the reason of its release. *)
Definition stop_shape (s : HStop.t) : Prop :=
  (HStop.status s = "active"
   ∧ HStop.released_at s = None ∧ HStop.release_reason s = None)
  ∨ (HStop.status s = "released"
     ∧ is_Some (HStop.released_at s) ∧ is_Some (HStop.release_reason s)).

Definition stops_shaped (d : DB) : Prop :=
  ∀ k s, h_stops d !! k = Some s → stop_shape s.

(** The [h_id] of every stop and of every recovery is the key of an event. *)
Definition references_resolve (d : DB) : Prop :=
  (∀ k s, h_stops d !! k = Some s → is_Some (h_events d !! HStop.h_id s))
  ∧ (∀ k r, recoveries d !! k = Some r → is_Some (h_events d !! Recovery.h_id r)).

(** The log rows are numbered 1, 2, 3, ... in the order of their insertion. *)
Definition log_ids_in_sequence (d : DB) : Prop :=
  ObserveLog.id <$> observe_logs d = Z.of_nat <$> seq 1 (length (observe_logs d)).

(** The log has an entry with this module, action and target. *)
Definition logged (d : DB) (module action target : string) : Prop :=
  ∃ entry,
    entry ∈ observe_logs d
    ∧ ObserveLog.module entry = module
    ∧ ObserveLog.action entry = action
    ∧ ObserveLog.target_id entry = Some target.

Definition creations_logged (d : DB) : Prop :=
  (∀ k e, h_events d !! k = Some e → logged d "h_event" "created" k)
  ∧ (∀ k s, h_stops d !! k = Some s → logged d "h_stop" "activated" k)
  ∧ (∀ k r, recoveries d !! k = Some r → logged d "r0" "initiated" k).

(** ** What a query filter lets through *)

(** An optional filter lets a value through when it is left out, when it is
    the empty string, or when it is that value. *)
Definition passes (filter : option string) (value : string) : Prop :=
  ∀ v, filter = Some v → v ≠ "" → value = v.

(** The same for the nullable [target_id] column of the log. *)
Definition passes_target (filter : option string) (value : option string) : Prop :=
  ∀ v, filter = Some v → v ≠ "" → value = Some v.

(** ** Clocks that never repeat *)

Definition dt_lt (a b : datetime) : Prop :=
  (dt_year a < dt_year b)%N ∨ (dt_year a = dt_year b ∧ (dt_micros a < dt_micros b)%N).

(** Every reading of the clock is later than all readings before it. *)
Definition clock_increasing (clock : nat → datetime) : Prop :=
  ∀ i j, (i < j)%nat → dt_lt (clock i) (clock j).

(** [a] was logged strictly before [b]. *)
Definition logged_before (a b : ObserveLog.t) : Prop :=
  dt_lt (ObserveLog.timestamp a) (ObserveLog.timestamp b).

(** The log is in the order of its timestamps, all of them readings of the
    clock that have been taken. *)
Definition log_in_time_order (clock : nat → datetime) (w : World) : Prop :=
  StronglySorted logged_before (observe_logs (db w))
  ∧ Forall (λ x, ∃ t, (t < ticks w)%nat ∧ ObserveLog.timestamp x = clock t)
      (observe_logs (db w)).

(** What one call does to the log and to the count of clock readings. *)
Definition log_time_step (clock : nat → datetime) (w w' : World) : Prop :=
  (ticks w <= ticks w')%nat
  ∧ (observe_logs (db w') = observe_logs (db w)
     ∨ ∃ x t, observe_logs (db w') = observe_logs (db w) ++ [x]
              ∧ ObserveLog.timestamp x = clock t
              ∧ (ticks w <= t < ticks w')%nat).

(** ** A concrete run, after [demo.py] *)

Definition demo_clock (k : nat) : datetime := mk_datetime 2026 (N.of_nat k).
Definition demo_uuid4 (k : nat) : string := "9f1c2a4e-5b7d-4c3a-8e21-0d6f4b9a7c55".

Definition demo_event : HEventCreate.t :=
  HEventCreate.mk "systemic" "ai_recommendation" "extreme content promoted to minors"
    "critical" "high" "population" (Some 50000%Z) "ongoing" "automated"
    (Some "monitor-fairness-v2") None.

Definition demo_stop : HStopCreate.t :=
  HStopCreate.mk "HIR-2026-00001" "scope_reduction" (Some "recommendation-engine-v3")
    "critical harm threshold exceeded" "system" (mk_datetime 2026 86400000000).

Definition demo_release : HStopRelease.t :=
  HStopRelease.mk "root cause identified" "operator-lead".

Definition demo_recovery : RecoveryCreate.t :=
  RecoveryCreate.mk "HIR-2026-00001" 50000
    (Some [JDict [("type", JStr "access_restoration"); ("status", JStr "in_progress")]])
    (Some "recovery initiated before investigation").

(** Requests whose [affected_count] is 2^63, one more than the INTEGER
    columns hold. *)
Definition huge_event : HEventCreate.t :=
  HEventCreate.mk "systemic" "ai_recommendation" "extreme content promoted to minors"
    "critical" "high" "population" (Some 9223372036854775808%Z) "ongoing" "automated"
    (Some "monitor-fairness-v2") None.

Definition huge_recovery : RecoveryCreate.t :=
  RecoveryCreate.mk "HIR-2026-00001" 9223372036854775808 None None.

Definition demo_progress : RecoveryUpdate.t :=
  RecoveryUpdate.mk (Some "in_progress") None None.

Definition demo_nothing : RecoveryUpdate.t :=
  RecoveryUpdate.mk (Some "") (Some []) None.

Definition demo_resolved : HEventStatusUpdate.t :=
  HEventStatusUpdate.mk "resolved" "root cause fixed".

Definition w_event : World := (create_event demo_clock demo_uuid4 demo_event init_world).2.
Definition w_stopped : World := (activate_stop demo_clock demo_uuid4 demo_stop w_event).2.
Definition w_recovering : World :=
  (initiate_recovery demo_clock demo_uuid4 demo_recovery w_stopped).2.
Definition w_released : World :=
  (release_stop demo_clock demo_uuid4 "STOP-2026-00001" demo_release w_stopped).2.

Definition w_two_stops : World := (activate_stop demo_clock demo_uuid4 demo_stop w_stopped).2.
Definition w_updated : World :=
  (update_recovery demo_clock demo_uuid4 "R0-2026-00001" demo_progress w_recovering).2.

(** [n] creations in a row. *)
Fixpoint populate (n : nat) (w : World) : World :=
  match n with
  | O => w
  | S k => (create_event demo_clock demo_uuid4 demo_event (populate k w)).2
  end.

Definition demo_released_stop : HStop.t :=
  HStop.mk "STOP-2026-00001" "HIR-2026-00001" "scope_reduction" "released"
    (Some "recommendation-engine-v3") "critical harm threshold exceeded" "system"
    (mk_datetime 2026 86400000000) (Some (mk_datetime 2026 8))
    (Some "root cause identified") (mk_datetime 2026 6).

(** ** Tactics *)

(** Unfolds the monad of the handlers down to pairs of outcomes and worlds. *)
Ltac run :=
  unfold add_row, bind_integer, generate_h_id, generate_stop_id, generate_recovery_id,
    log_action,
    mbind, mret, M_bind, M_ret, query, commit, now, uuid4_str, raise;
  simpl.

(** Case analysis on every lookup and test a handler makes. *)
Ltac branches :=
  repeat match goal with
         | |- context [fits_integer ?o] => destruct (fits_integer o) eqn:?; simpl
         | |- context [@lookup _ _ (gmap _ _) _ ?k ?m] => destruct (m !! k) eqn:?; simpl
         | |- context [String.eqb ?a ?b] => destruct (String.eqb a b) eqn:?; simpl
         | |- context [match ?x with _ => _ end] => destruct x eqn:?; simpl
         end.

Ltac one_entry h :=
  intros * H; revert H; unfold h; run; branches;
  intros [= <- <-]; eexists; simpl; (split; [reflexivity|]); by split.

Ltac log_grows h :=
  unfold h; run; branches; solve [reflexivity | by apply prefix_app_r].

(** A refused request, or the step of the handler at hand. *)
Ltac refused_or step :=
  first [ apply db_step_refused
        | unfold with_logs, with_events, with_stops, with_recoveries; simpl;
          eapply step; unfold log_entry_for; simpl; eauto ].

(** A request that raises has not written. *)
Ltac untouched h :=
  intros * H; revert H; unfold h; run; branches; by intros [= <- <-].

(** The log and the clock readings of one call. *)
Ltac timed h :=
  unfold log_time_step, h; run; branches;
  (split; [lia|]);
  first [ by left
        | right; eexists _, _; split; [reflexivity|]; simpl; split; [reflexivity|lia] ].

(** * Proofs *)

(** ** Identifiers *)

Section Format.

Lemma int_of_zero s : int_of (String "0" s) = int_of s.
Proof. unfold int_of. simpl. by destruct (NilEmpty.uint_of_string s). Qed.

Lemma int_of_fmt_d n : int_of (fmt_d n) = Some n.
Proof.
  unfold int_of, fmt_d. rewrite NilEmpty.usu. simpl.
  by rewrite DecimalN.Unsigned.of_to.
Qed.

Lemma int_of_zeros k s : int_of (zeros k +:+ s) = int_of s.
Proof.
  induction k as [|k IH]; [done|].
  change (zeros (S k) +:+ s) with (String "0" (zeros k +:+ s)).
  by rewrite int_of_zero.
Qed.

Lemma int_of_fmt_05d n : int_of (fmt_05d n) = Some n.
Proof. unfold fmt_05d. rewrite int_of_zeros. apply int_of_fmt_d. Qed.

Lemma length_zeros_app k s :
  String.length (zeros k +:+ s) = (k + String.length s)%nat.
Proof. induction k as [|k IH]; simpl; [done|]. by rewrite IH. Qed.

Lemma fmt_05d_min_width n : (5 <= String.length (fmt_05d n))%nat.
Proof. unfold fmt_05d. rewrite length_zeros_app. lia. Qed.

(** A string of [k] digits reads as a number below [10 ^ k]. *)
Lemma usize_revapp d d' :
  DecimalPos.Unsigned.usize (Decimal.revapp d d')
  = (DecimalPos.Unsigned.usize d + DecimalPos.Unsigned.usize d')%N.
Proof. revert d'. induction d; intros d'; simpl; rewrite ?IHd; simpl; lia. Qed.

Lemma of_lu_bound d :
  (DecimalPos.Unsigned.of_lu d < 10 ^ DecimalPos.Unsigned.usize d)%N.
Proof.
  induction d; simpl DecimalPos.Unsigned.usize; rewrite ?N.pow_succ_r';
    simpl DecimalPos.Unsigned.of_lu; simpl; lia.
Qed.

Lemma of_uint_bound d : (N.of_uint d < 10 ^ DecimalPos.Unsigned.usize d)%N.
Proof.
  change (N.of_uint d) with (Pos.of_uint d). rewrite DecimalPos.Unsigned.of_uint_alt.
  replace (DecimalPos.Unsigned.usize d)
    with (DecimalPos.Unsigned.usize (Decimal.rev d)); [apply of_lu_bound|].
  unfold Decimal.rev. rewrite usize_revapp. simpl. lia.
Qed.

Lemma usize_uint_of_string s : ∀ d,
  NilEmpty.uint_of_string s = Some d →
  DecimalPos.Unsigned.usize d = N.of_nat (String.length s).
Proof.
  induction s as [|c s IH]; simpl; intros d.
  - by intros [= <-].
  - destruct (NilEmpty.uint_of_string s) as [d0|]; [|done]. intros H.
    apply uint_of_char_spec in H. specialize (IH d0 eq_refl).
    destruct H as [H|[H|[H|[H|[H|[H|[H|[H|[H|H]]]]]]]]]; destruct H as [_ ->];
      simpl; lia.
Qed.

Lemma int_of_bound s n :
  int_of s = Some n → (n < 10 ^ N.of_nat (String.length s))%N.
Proof.
  unfold int_of. destruct (NilEmpty.uint_of_string s) as [d|] eqn:Hd; [|done].
  simpl. intros [= <-]. rewrite <- (usize_uint_of_string s d Hd). apply of_uint_bound.
Qed.

(** From 100000 on, five digits are not enough. *)
Lemma fmt_05d_long n : (100000 <= n)%N → (5 < String.length (fmt_05d n))%nat.
Proof.
  intros Hn. pose proof (int_of_bound _ _ (int_of_fmt_05d n)) as Hb.
  destruct (decide (5 < String.length (fmt_05d n))%nat) as [|Hshort]; [done|].
  assert (10 ^ N.of_nat (String.length (fmt_05d n)) <= 10 ^ 5)%N.
  { apply N.pow_le_mono_r; lia. }
  change (10 ^ 5)%N with 100000%N in *. lia.
Qed.

Lemma fmt_05d_inj n m : fmt_05d n = fmt_05d m → n = m.
Proof.
  intros E. apply (f_equal int_of) in E.
  rewrite !int_of_fmt_05d in E. congruence.
Qed.

Lemma all_digits_app s t :
  all_digits (s +:+ t) = all_digits s && all_digits t.
Proof. induction s as [|c s IH]; simpl; [done|]. by rewrite IH, andb_assoc. Qed.

Lemma all_digits_fmt_d n : all_digits (fmt_d n) = true.
Proof. unfold fmt_d. induction (N.to_uint n); simpl; auto. Qed.

Lemma all_digits_zeros k : all_digits (zeros k) = true.
Proof. induction k; simpl; auto. Qed.

Lemma all_digits_fmt_05d n : all_digits (fmt_05d n) = true.
Proof.
  unfold fmt_05d. by rewrite all_digits_app, all_digits_zeros, all_digits_fmt_d.
Qed.

(** A string of digits followed by a dash splits in one way only. *)
Lemma dash_split a a' b b' :
  all_digits a = true → all_digits a' = true →
  a +:+ String "-" b = a' +:+ String "-" b' → a = a' ∧ b = b'.
Proof.
  revert a'. induction a as [|c a IH]; intros [|c' a']; simpl; intros Ha Ha' E.
  - by inversion E.
  - inversion E; subst. by simpl in Ha'.
  - inversion E; subst. by simpl in Ha.
  - apply andb_prop in Ha as [_ Ha]. apply andb_prop in Ha' as [_ Ha'].
    inversion E; subst. destruct (IH a' Ha Ha') as [-> ->]; auto.
Qed.

Lemma fmt_id_inj prefix y y' c c' :
  fmt_id prefix y c = fmt_id prefix y' c' → y = y' ∧ c = c'.
Proof.
  unfold fmt_id. intros E. apply String.app_inj in E. simpl in E.
  inversion E as [E']. apply dash_split in E' as [Ey Ec]; auto using all_digits_fmt_d.
  split; [|by apply fmt_05d_inj].
  apply (f_equal int_of) in Ey. rewrite !int_of_fmt_d in Ey. congruence.
Qed.

Lemma all_from_spec P n : ∀ c,
  all_from P c n = true → ∀ x, (c <= x < c + N.of_nat n)%N → P x = true.
Proof.
  induction n as [|k IH]; simpl; intros c H x Hx; [lia|].
  apply andb_prop in H as [H1 H2].
  destruct (decide (x = c)) as [->|]; [done|]. apply (IH _ H2). lia.
Qed.

Lemma fmt_d_length_4 y :
  (1000 <= y <= 9999)%N → String.length (fmt_d y) = 4%nat.
Proof.
  intros Hy.
  assert (H : all_from (λ y, (String.length (fmt_d y) =? 4)%nat) 1000
                (N.to_nat 9000) = true) by (vm_compute; reflexivity).
  apply Nat.eqb_eq, (all_from_spec _ _ _ H). rewrite N2Nat.id. clear H. lia.
Qed.

Lemma fmt_05d_length_5 c :
  (c <= 99999)%N → String.length (fmt_05d c) = 5%nat.
Proof.
  intros Hc.
  assert (H : all_from (λ c, (String.length (fmt_05d c) =? 5)%nat) 0
                (N.to_nat 100000) = true) by (vm_compute; reflexivity).
  apply Nat.eqb_eq, (all_from_spec _ _ _ H). rewrite N2Nat.id. clear H. lia.
Qed.

Lemma h_id_pattern_intro y q :
  String.length y = 4%nat → all_digits y = true →
  String.length q = 5%nat → all_digits q = true →
  h_id_pattern ("HIR" +:+ "-" +:+ y +:+ "-" +:+ q) = true.
Proof.
  destruct y as [|y1 [|y2 [|y3 [|y4 [|]]]]]; try done.
  destruct q as [|q1 [|q2 [|q3 [|q4 [|q5 [|]]]]]]; try done.
  intros _ Hy _ Hq. unfold h_id_pattern. simpl in *.
  rewrite Hy, Hq. simpl.
  repeat (apply andb_prop in Hy as [? Hy]). repeat (apply andb_prop in Hq as [? Hq]).
  repeat match goal with H : is_digit _ = true |- _ => rewrite H; clear H end.
  reflexivity.
Qed.

Lemma h_id_pattern_fmt_id y c :
  (1000 <= y <= 9999)%N → (c <= 99999)%N →
  h_id_pattern (fmt_id "HIR" y c) = true.
Proof.
  intros Hy Hc. apply h_id_pattern_intro;
    auto using fmt_d_length_4, fmt_05d_length_5, all_digits_fmt_d, all_digits_fmt_05d.
Qed.

End Format.

(** ** The identifier invariant *)

Section Invariant.

Context {V : Type} (prefix : string) (key : V → string).

Lemma ids_wf_empty : ids_wf prefix key (∅ : gmap string V).
Proof. intros k v H. by rewrite lookup_empty in H. Qed.

(** The next generated identifier is not in the table yet. *)
Lemma ids_wf_fresh (tbl : gmap string V) y :
  ids_wf prefix key tbl →
  tbl !! fmt_id prefix y (N.of_nat (size tbl) + 1) = None.
Proof.
  intros Hwf. destruct (tbl !! _) as [v|] eqn:E; [|done].
  destruct (Hwf _ _ E) as (_ & y' & c & Heq & Hc).
  apply fmt_id_inj in Heq as [_ <-]. lia.
Qed.

Lemma ids_wf_insert (tbl : gmap string V) y v :
  ids_wf prefix key tbl →
  key v = fmt_id prefix y (N.of_nat (size tbl) + 1) →
  ids_wf prefix key (<[fmt_id prefix y (N.of_nat (size tbl) + 1) := v]> tbl).
Proof.
  intros Hwf Hk k v'. pose proof (ids_wf_fresh tbl y Hwf) as Hfresh.
  rewrite (map_size_insert_None _ _ _ Hfresh).
  rewrite lookup_insert. case_decide as Hd.
  - intros [= <-]. subst k. split; [done|]. eexists _, _. split; [done|]. lia.
  - intros E. destruct (Hwf _ _ E) as (Hkey & y' & c & Heq & Hc).
    split; [done|]. exists y', c. split; [done|]. lia.
Qed.

Lemma ids_wf_update (tbl : gmap string V) k v v' :
  ids_wf prefix key tbl → tbl !! k = Some v → key v' = key v →
  ids_wf prefix key (<[k := v']> tbl).
Proof.
  intros Hwf Hv Hk j u. rewrite (map_size_insert_Some k v' tbl) by eauto.
  rewrite lookup_insert. case_decide as Hd.
  - intros [= <-]. subst j. destruct (Hwf _ _ Hv) as [Hkey Hid].
    split; [congruence|done].
  - apply Hwf.
Qed.

End Invariant.

Section Preservation.

Variable clock : nat → datetime.
Variable uuid4 : nat → string.

Lemma wf_db_init : wf_db (db init_world).
Proof. split; [|split]; apply ids_wf_empty. Qed.

Lemma create_event_wf ev w :
  wf_db (db w) → wf_db (db (create_event clock uuid4 ev w).2).
Proof.
  intros (He & Hs & Hr). unfold create_event. run.
  destruct (fits_integer _); simpl; [|done].
  rewrite (ids_wf_fresh _ _ _ _ He). simpl.
  split; [|by split]. by apply ids_wf_insert.
Qed.

Lemma update_event_status_wf h_id upd w :
  wf_db (db w) → wf_db (db (update_event_status clock uuid4 h_id upd w).2).
Proof.
  intros (He & Hs & Hr). unfold update_event_status. run.
  destruct (h_events (db w) !! h_id) as [e|] eqn:E; simpl; [|done].
  split; [|by split]. by eapply ids_wf_update.
Qed.

Lemma activate_stop_wf stop w :
  wf_db (db w) → wf_db (db (activate_stop clock uuid4 stop w).2).
Proof.
  intros (He & Hs & Hr). unfold activate_stop. run.
  destruct (h_events (db w) !! HStopCreate.h_id stop) as [e|] eqn:E; simpl; [|done].
  rewrite (ids_wf_fresh _ _ _ _ Hs). simpl.
  split; [by eapply ids_wf_update|split; [by apply ids_wf_insert|done]].
Qed.

Lemma release_stop_wf stop_id rel w :
  wf_db (db w) → wf_db (db (release_stop clock uuid4 stop_id rel w).2).
Proof.
  intros (He & Hs & Hr). unfold release_stop. run.
  destruct (h_stops (db w) !! stop_id) as [s|] eqn:E; simpl; [|done].
  destruct (String.eqb _ "released"); simpl; [done|].
  destruct (h_events (db w) !! HStop.h_id s) as [e|] eqn:E'; simpl.
  - destruct (String.eqb _ "h_stop_active"); simpl;
      (split; [|split]); try done; by eapply ids_wf_update.
  - (split; [|split]); try done; by eapply ids_wf_update.
Qed.

Lemma initiate_recovery_wf rc w :
  wf_db (db w) → wf_db (db (initiate_recovery clock uuid4 rc w).2).
Proof.
  intros (He & Hs & Hr). unfold initiate_recovery. run.
  destruct (h_events (db w) !! RecoveryCreate.h_id rc) as [e|] eqn:E; simpl; [|done].
  destruct (fits_integer _); simpl; [|done].
  rewrite (ids_wf_fresh _ _ _ _ Hr). simpl.
  split; [by eapply ids_wf_update|split; [done|by apply ids_wf_insert]].
Qed.

Lemma update_recovery_wf recovery_id upd w :
  wf_db (db w) → wf_db (db (update_recovery clock uuid4 recovery_id upd w).2).
Proof.
  intros (He & Hs & Hr). unfold update_recovery. run.
  destruct (recoveries (db w) !! recovery_id) as [r|] eqn:E; simpl; [|done].
  split; [done|split; [done|]]. eapply ids_wf_update; [done..|].
  by destruct upd as [[[|??]|] [[|??]|] [[|??]|]].
Qed.

Lemma evolves_wf w0 w : evolves clock uuid4 w0 w → wf_db (db w0) → wf_db (db w).
Proof.
  induction 1; intros Hwf;
    auto using create_event_wf, update_event_status_wf, activate_stop_wf,
      release_stop_wf, initiate_recovery_wf, update_recovery_wf.
Qed.

Lemma reachable_wf w : reachable clock uuid4 w → wf_db (db w).
Proof. intros H. apply (evolves_wf _ _ H), wf_db_init. Qed.

End Preservation.

(** ** The stop lifecycle *)

Section Stops.

Variable clock : nat → datetime.
Variable uuid4 : nat → string.

Lemma release_stop_released w stop_id rel s :
  h_stops (db w) !! stop_id = Some s → HStop.status s = "released" →
  release_stop clock uuid4 stop_id rel w = (Raise (already_released stop_id), w).
Proof. intros Hs Hst. unfold release_stop. run. by rewrite Hs, Hst. Qed.

(** What a release does to a stop that is not released yet. *)
Lemma release_stop_run w stop_id rel s :
  h_stops (db w) !! stop_id = Some s → HStop.status s ≠ "released" →
  ∃ w',
    release_stop clock uuid4 stop_id rel w
      = (Ok (HStop.release (clock (ticks w)) (HStopRelease.reason rel) s), w')
    ∧ h_stops (db w')
      = <[stop_id := HStop.release (clock (ticks w)) (HStopRelease.reason rel) s]>
          (h_stops (db w))
    ∧ (ticks w < ticks w')%nat
    ∧ match h_events (db w) !! HStop.h_id s with
      | Some e =>
          if String.eqb (HEvent.status e) "h_stop_active" then
            h_events (db w')
              = <[HStop.h_id s := HEvent.touch "investigating" (clock (S (ticks w))) e]>
                  (h_events (db w))
            ∧ (S (ticks w) < ticks w')%nat
          else h_events (db w') = h_events (db w)
      | None => h_events (db w') = h_events (db w)
      end.
Proof.
  intros Hs Hst. unfold release_stop. run. rewrite Hs.
  destruct (String.eqb_spec (HStop.status s) "released") as [|_]; [done|].
  destruct (h_events (db w) !! HStop.h_id s) as [e|]; simpl.
  - destruct (String.eqb (HEvent.status e) "h_stop_active"); simpl;
      (eexists; split; [reflexivity|]; simpl; repeat split; lia).
  - eexists; split; [reflexivity|]; simpl; repeat split; lia.
Qed.

(** No handler touches a stop once it is released. *)
Lemma released_frozen w w' stop_id s :
  evolves clock uuid4 w w' →
  h_stops (db w) !! stop_id = Some s → HStop.status s = "released" →
  h_stops (db w') !! stop_id = Some s.
Proof.
  intros Hev Hs Hst. induction Hev as [|w' ev _ IH|w' h upd _ IH|w' stop _ IH
                                       |w' id rel _ IH|w' rc _ IH|w' id upd _ IH]; [done|..].
  - unfold create_event. run.
    destruct (fits_integer _); simpl; [|done]. by destruct (h_events (db w') !! _).
  - unfold update_event_status. run. by destruct (h_events (db w') !! h).
  - unfold activate_stop. run.
    destruct (h_events (db w') !! HStopCreate.h_id stop); simpl; [|done].
    destruct (h_stops (db w') !! fmt_id _ _ _) eqn:E; simpl; [done|].
    rewrite lookup_insert_ne; [done|]. intros <-. congruence.
  - destruct (decide (id = stop_id)) as [->|Hne].
    + by rewrite (release_stop_released _ _ _ _ IH Hst).
    + unfold release_stop. run.
      destruct (h_stops (db w') !! id) as [s'|]; simpl; [|done].
      destruct (String.eqb _ "released"); simpl; [done|].
      destruct (h_events (db w') !! HStop.h_id s') as [e|]; simpl;
        [destruct (String.eqb _ "h_stop_active"); simpl|];
        by rewrite lookup_insert_ne.
  - unfold initiate_recovery. run.
    destruct (h_events (db w') !! RecoveryCreate.h_id rc); simpl; [|done].
    destruct (fits_integer _); simpl; [|done].
    by destruct (recoveries (db w') !! fmt_id _ _ _).
  - unfold update_recovery. run. by destruct (recoveries (db w') !! id).
Qed.

(** C1. A stop whose status is "released" cannot be released: the request
    is answered with status 400, "already released", and the world is left
    as it was.  In particular, once a release has succeeded, every later
    release of that stop fails, whatever requests were served in between,
    and the stop still carries the status, time and reason of the first
    release. *)
Theorem release_stop_only_once :
  (∀ w stop_id rel s,
     h_stops (db w) !! stop_id = Some s → HStop.status s = "released" →
     release_stop clock uuid4 stop_id rel w = (Raise (already_released stop_id), w))
  ∧ (∀ w stop_id rel s w1,
       release_stop clock uuid4 stop_id rel w = (Ok s, w1) →
       ∀ w2 rel', evolves clock uuid4 w1 w2 →
         release_stop clock uuid4 stop_id rel' w2 = (Raise (already_released stop_id), w2)
         ∧ ∃ s2, h_stops (db w2) !! stop_id = Some s2
                 ∧ HStop.status s2 = "released"
                 ∧ HStop.released_at s2 = HStop.released_at s
                 ∧ HStop.release_reason s2 = HStop.release_reason s).
Proof.
  split; [apply release_stop_released|].
  intros w stop_id rel s w1 Hok w2 rel' Hev.
  assert (h_stops (db w1) !! stop_id = Some s ∧ HStop.status s = "released")
    as [Hs Hst].
  { destruct (h_stops (db w) !! stop_id) as [s0|] eqn:E0.
    - destruct (decide (HStop.status s0 = "released")) as [Hr|Hr].
      + rewrite (release_stop_released _ _ _ _ E0 Hr) in Hok. discriminate.
      + destruct (release_stop_run w stop_id rel s0 E0 Hr) as (w' & Hrun & Hst & _).
        rewrite Hrun in Hok. injection Hok as <- <-.
        rewrite Hst, lookup_insert_eq. done.
    - unfold release_stop in Hok. revert Hok. run. by rewrite E0. }
  pose proof (released_frozen _ _ _ _ Hev Hs Hst) as Hs2.
  split; [by apply (release_stop_released _ _ _ s)|]. by exists s.
Qed.

(** C3. Releasing a stop that is not released marks it released.  If its
    event exists with status "h_stop_active", the event moves to
    "investigating" and its [updated_at] is set to a clock reading taken
    during the call; if the event has another status, or there is no such
    event, the event table is left as it was and the release succeeds all
    the same. *)
Theorem release_stop_event_effect w stop_id rel s :
  h_stops (db w) !! stop_id = Some s → HStop.status s ≠ "released" →
  ∃ s' w',
    release_stop clock uuid4 stop_id rel w = (Ok s', w')
    ∧ h_stops (db w') !! stop_id = Some s'
    ∧ HStop.status s' = "released"
    ∧ (∀ e, h_events (db w) !! HStop.h_id s = Some e →
            HEvent.status e = "h_stop_active" →
            ∃ e' t,
              h_events (db w') !! HStop.h_id s = Some e'
              ∧ HEvent.status e' = "investigating"
              ∧ HEvent.updated_at e' = clock t
              ∧ (ticks w <= t < ticks w')%nat)
    ∧ ((∀ e, h_events (db w) !! HStop.h_id s = Some e →
             HEvent.status e ≠ "h_stop_active") →
       h_events (db w') = h_events (db w)).
Proof.
  intros Hs Hst.
  destruct (release_stop_run w stop_id rel s Hs Hst) as (w' & Hrun & Hst' & Ht & Hev).
  eexists _, w'. split; [exact Hrun|]. split; [by rewrite Hst', lookup_insert_eq|].
  split; [done|]. split.
  - intros e He Hact. rewrite He, Hact in Hev. simpl in Hev. destruct Hev as [Hev Ht'].
    eexists _, (S (ticks w)). rewrite Hev, lookup_insert_eq.
    repeat split; lia.
  - intros Hother. destruct (h_events (db w) !! HStop.h_id s) as [e|]; [|done].
    specialize (Hother e eq_refl).
    by destruct (String.eqb_spec (HEvent.status e) "h_stop_active").
Qed.

(** C9. Among existing stops, a release is refused exactly when the status
    is "released": a stop with any other status, "extended" as much as
    "active", is released, and what is stored and returned is the same
    function of the stop whatever that status was. *)
Theorem release_stop_rejects_only_released w stop_id rel s :
  h_stops (db w) !! stop_id = Some s →
  ((∃ e w', release_stop clock uuid4 stop_id rel w = (Raise e, w'))
     ↔ HStop.status s = "released")
  ∧ (HStop.status s ≠ "released" →
     ∃ t w',
       release_stop clock uuid4 stop_id rel w
         = (Ok (HStop.release t (HStopRelease.reason rel) s), w')
       ∧ h_stops (db w') !! stop_id
         = Some (HStop.release t (HStopRelease.reason rel) s)
       ∧ HStop.status (HStop.release t (HStopRelease.reason rel) s) = "released").
Proof.
  intros Hs. split; [split|].
  - intros (e & w' & Hfail).
    destruct (decide (HStop.status s = "released")) as [|Hne]; [done|].
    destruct (release_stop_run w stop_id rel s Hs Hne) as (w1 & Hrun & _).
    rewrite Hrun in Hfail. discriminate.
  - intros Hst. eexists _, _. by apply release_stop_released with s.
  - intros Hne.
    destruct (release_stop_run w stop_id rel s Hs Hne) as (w1 & Hrun & Hst & _).
    eexists _, w1. split; [exact Hrun|]. by rewrite Hst, lookup_insert_eq.
Qed.

(** C2. In a reachable world, activating a stop on an existing event
    succeeds and leaves that event with status "h_stop_active" and an
    [updated_at] read from the clock during the call, whatever the status
    was before.  If there is no event with the given id the request is
    answered with status 404 and the world, hence the stop table, is left
    as it was. *)
Theorem activate_stop_event_status w stop :
  reachable clock uuid4 w →
  (∀ e, h_events (db w) !! HStopCreate.h_id stop = Some e →
     ∃ s w' e' t,
       activate_stop clock uuid4 stop w = (Ok s, w')
       ∧ h_events (db w') !! HStopCreate.h_id stop = Some e'
       ∧ HEvent.status e' = "h_stop_active"
       ∧ HEvent.updated_at e' = clock t
       ∧ (ticks w <= t < ticks w')%nat)
  ∧ (h_events (db w) !! HStopCreate.h_id stop = None →
     activate_stop clock uuid4 stop w
       = (Raise (event_not_found (HStopCreate.h_id stop)), w)).
Proof.
  intros Hreach. destruct (reachable_wf _ _ _ Hreach) as (_ & Hwf & _). split.
  - intros e He. unfold activate_stop. run. rewrite He. simpl.
    rewrite (ids_wf_fresh _ _ _ _ Hwf). simpl.
    eexists _, _, _, (S (ticks w)). split; [reflexivity|]. simpl.
    rewrite lookup_insert_eq. repeat split; lia.
  - intros He. unfold activate_stop. run. by rewrite He.
Qed.

End Stops.

(** ** The audit trail *)

Section Audit.

Variable clock : nat → datetime.
Variable uuid4 : nat → string.

Lemma create_event_log w ev r w' :
  create_event clock uuid4 ev w = (Ok r, w') → appends_one w w' "h_event" "created".
Proof. one_entry create_event. Qed.

Lemma update_event_status_log w h_id upd r w' :
  update_event_status clock uuid4 h_id upd w = (Ok r, w') →
  appends_one w w' "h_event" "status_updated".
Proof. one_entry update_event_status. Qed.

Lemma activate_stop_log w stop r w' :
  activate_stop clock uuid4 stop w = (Ok r, w') → appends_one w w' "h_stop" "activated".
Proof. one_entry activate_stop. Qed.

Lemma release_stop_log w stop_id rel r w' :
  release_stop clock uuid4 stop_id rel w = (Ok r, w') →
  appends_one w w' "h_stop" "released".
Proof. one_entry release_stop. Qed.

Lemma initiate_recovery_log w rc r w' :
  initiate_recovery clock uuid4 rc w = (Ok r, w') → appends_one w w' "r0" "initiated".
Proof. one_entry initiate_recovery. Qed.

Lemma update_recovery_log w recovery_id upd r w' :
  update_recovery clock uuid4 recovery_id upd w = (Ok r, w') →
  appends_one w w' "r0" "updated".
Proof. one_entry update_recovery. Qed.

(** Whatever the requests and their outcomes, the log only grows at its end. *)
Lemma evolves_log_prefix w w' :
  evolves clock uuid4 w w' → observe_logs (db w) `prefix_of` observe_logs (db w').
Proof.
  induction 1 as [|w' ev _ IH|w' h upd _ IH|w' stop _ IH
                  |w' id rel _ IH|w' rc _ IH|w' id upd _ IH]; [done|..];
    (etrans; [exact IH|]).
  - log_grows create_event.
  - log_grows update_event_status.
  - log_grows activate_stop.
  - log_grows release_stop.
  - log_grows initiate_recovery.
  - log_grows update_recovery.
Qed.

(** C4. Each of the six mutating operations, when it succeeds, extends the
    audit log by exactly one entry, with the module and the action of that
    operation; and over any sequence of requests the entries already in the
    log stay where and what they were. *)
Theorem audit_log_append_only :
  (∀ w ev r w', create_event clock uuid4 ev w = (Ok r, w') →
                appends_one w w' "h_event" "created")
  ∧ (∀ w stop r w', activate_stop clock uuid4 stop w = (Ok r, w') →
                    appends_one w w' "h_stop" "activated")
  ∧ (∀ w stop_id rel r w', release_stop clock uuid4 stop_id rel w = (Ok r, w') →
                           appends_one w w' "h_stop" "released")
  ∧ (∀ w rc r w', initiate_recovery clock uuid4 rc w = (Ok r, w') →
                  appends_one w w' "r0" "initiated")
  ∧ (∀ w recovery_id upd r w',
       update_recovery clock uuid4 recovery_id upd w = (Ok r, w') →
       appends_one w w' "r0" "updated")
  ∧ (∀ w h_id upd r w', update_event_status clock uuid4 h_id upd w = (Ok r, w') →
                        appends_one w w' "h_event" "status_updated")
  ∧ (∀ w w', evolves clock uuid4 w w' →
             observe_logs (db w) `prefix_of` observe_logs (db w')).
Proof.
  repeat split;
    eauto using create_event_log, activate_stop_log, release_stop_log,
      initiate_recovery_log, update_recovery_log, update_event_status_log,
      evolves_log_prefix.
Qed.

End Audit.

(** ** Events *)

Section Events.

Variable clock : nat → datetime.
Variable uuid4 : nat → string.

(** C7. Updating the status of an event that does not exist is answered
    with status 404 and changes nothing.  For an existing event the new
    status is stored whatever the old and the new status are, [updated_at]
    is set to the clock reading taken by the call, and one audit entry is
    appended whose details record the old status, the new status and the
    reason given. *)
Theorem update_event_status_overwrites w h_id upd :
  (h_events (db w) !! h_id = None →
   update_event_status clock uuid4 h_id upd w = (Raise (event_not_found h_id), w))
  ∧ (∀ e, h_events (db w) !! h_id = Some e →
      ∃ e' w' entry,
        update_event_status clock uuid4 h_id upd w = (Ok e', w')
        ∧ h_events (db w') !! h_id = Some e'
        ∧ HEvent.status e' = HEventStatusUpdate.status upd
        ∧ HEvent.updated_at e' = clock (ticks w)
        ∧ (ticks w < ticks w')%nat
        ∧ observe_logs (db w') = observe_logs (db w) ++ [entry]
        ∧ ObserveLog.module entry = "h_event"
        ∧ ObserveLog.action entry = "status_updated"
        ∧ ObserveLog.target_id entry = Some h_id
        ∧ ObserveLog.details entry
          = Some (JDict [("old", JStr (HEvent.status e));
                         ("new", JStr (HEventStatusUpdate.status upd));
                         ("reason", JStr (HEventStatusUpdate.reason upd))])).
Proof.
  split.
  - intros He. unfold update_event_status. run. by rewrite He.
  - intros e He. unfold update_event_status. run. rewrite He. simpl.
    eexists _, _, _. split; [reflexivity|]. simpl.
    rewrite lookup_insert_eq. repeat split. lia.
Qed.

(** What a creation does in a world whose identifiers are in order. *)
Lemma create_event_run w ev :
  wf_db (db w) →
  fits_integer (HEventCreate.affected_count ev) = true →
  ∃ e w',
    create_event clock uuid4 ev w = (Ok e, w')
    ∧ HEvent.h_id e
      = fmt_id "HIR" (dt_year (clock (ticks w))) (N.of_nat (size (h_events (db w))) + 1)
    ∧ HEvent.status e = "registered"
    ∧ h_events (db w) !! HEvent.h_id e = None
    ∧ h_events (db w') = <[HEvent.h_id e := e]> (h_events (db w)).
Proof.
  intros (He & _) Hfits. unfold create_event. run. rewrite Hfits. simpl.
  rewrite (ids_wf_fresh _ _ _ _ He). simpl.
  eexists _, _. split; [reflexivity|]. simpl. repeat split.
  apply (ids_wf_fresh _ _ _ _ He).
Qed.

(** C5, as the code has it.  In a reachable world a creation whose
    [affected_count] is absent or fits the 64 bits of the INTEGER column
    succeeds and returns a record with status "registered" whose [h_id] is
    "HIR-", the year of the clock, "-", and one more than the number of
    events of all years in the store, written in decimal and padded with
    zeros to at least five digits.  That sequence number has exactly five
    digits while the store holds fewer than 99999 events and more than five
    from then on.  No event of the store had that [h_id] before and exactly
    one has it afterwards.  While the year has four digits and the store
    holds fewer than 99999 events, the [h_id] has the shape
    HIR-dddd-ddddd.  A creation whose [affected_count] does not fit the 64
    bits returns no record: it fails with OverflowError and the tables are
    what they were. *)
Theorem create_event_h_id w ev :
  reachable clock uuid4 w →
  (fits_integer (HEventCreate.affected_count ev) = true →
   ∃ e w',
     create_event clock uuid4 ev w = (Ok e, w')
     ∧ HEvent.h_id e
       = "HIR-" +:+ fmt_d (dt_year (clock (ticks w))) +:+ "-"
         +:+ fmt_05d (N.of_nat (size (h_events (db w))) + 1)
     ∧ (5 <= String.length (fmt_05d (N.of_nat (size (h_events (db w))) + 1)))%nat
     ∧ int_of (fmt_05d (N.of_nat (size (h_events (db w))) + 1))
       = Some (N.of_nat (size (h_events (db w))) + 1)%N
     ∧ ((N.of_nat (size (h_events (db w))) < 99999)%N →
        String.length (fmt_05d (N.of_nat (size (h_events (db w))) + 1)) = 5%nat)
     ∧ ((99999 <= N.of_nat (size (h_events (db w))))%N →
        (5 < String.length (fmt_05d (N.of_nat (size (h_events (db w))) + 1)))%nat)
     ∧ HEvent.status e = "registered"
     ∧ h_events (db w') !! HEvent.h_id e = Some e
     ∧ (∀ k e0, h_events (db w) !! k = Some e0 → HEvent.h_id e0 ≠ HEvent.h_id e)
     ∧ (∀ k e1, h_events (db w') !! k = Some e1 →
                HEvent.h_id e1 = HEvent.h_id e → k = HEvent.h_id e ∧ e1 = e)
     ∧ ((1000 <= dt_year (clock (ticks w)) <= 9999)%N →
        (N.of_nat (size (h_events (db w))) < 99999)%N →
        h_id_pattern (HEvent.h_id e) = true))
  ∧ (fits_integer (HEventCreate.affected_count ev) = false →
     ∃ w', create_event clock uuid4 ev w = (Raise OverflowError, w') ∧ db w' = db w).
Proof.
  intros Hreach. split; cycle 1.
  { intros Hfits. unfold create_event. run. rewrite Hfits. simpl. by eexists. }
  intros Hfits. pose proof (reachable_wf _ _ _ Hreach) as Hwf.
  destruct (create_event_run w ev Hwf Hfits)
    as (e & w' & Hrun & Hid & Hst & Hfresh & Hins).
  assert (Hwf' : wf_db (db w')).
  { replace w' with (create_event clock uuid4 ev w).2 by (by rewrite Hrun).
    by apply create_event_wf. }
  exists e, w'. split; [done|]. split; [done|].
  split; [apply fmt_05d_min_width|].
  split; [apply int_of_fmt_05d|].
  split; [intros Hn; apply fmt_05d_length_5; lia|].
  split; [intros Hn; apply fmt_05d_long; lia|].
  split; [done|].
  split; [by rewrite Hins, lookup_insert_eq|]. split; [|split].
  - intros k e0 He0 Heq. destruct Hwf as (He & _).
    destruct (He _ _ He0) as [Hk _]. congruence.
  - intros k e1 He1 Heq. destruct Hwf' as (He & _).
    destruct (He _ _ He1) as [Hk _]. assert (k = HEvent.h_id e) as -> by congruence.
    split; [done|]. rewrite Hins, lookup_insert_eq in He1. congruence.
  - intros Hy Hn. rewrite Hid. apply h_id_pattern_fmt_id; [done|lia].
Qed.

End Events.

(** ** Recoveries *)

Section Recoveries.

Variable clock : nat → datetime.
Variable uuid4 : nat → string.

(** What an update does to an existing recovery. *)
Lemma update_recovery_run w recovery_id upd r :
  recoveries (db w) !! recovery_id = Some r →
  ∃ r' w' entry,
    update_recovery clock uuid4 recovery_id upd w = (Ok r', w')
    ∧ recoveries (db w') !! recovery_id = Some r'
    ∧ Recovery.status r'
      = match RecoveryUpdate.status upd with
        | Some ((String _ _) as v) => v
        | _ => Recovery.status r
        end
    ∧ Recovery.measures r'
      = match RecoveryUpdate.measures upd with
        | Some ((_ :: _) as v) => Some v
        | _ => Recovery.measures r
        end
    ∧ Recovery.notes r'
      = match RecoveryUpdate.notes upd with
        | Some ((String _ _) as v) => Some v
        | _ => Recovery.notes r
        end
    ∧ Recovery.updated_at r' = clock (ticks w)
    ∧ (ticks w < ticks w')%nat
    ∧ observe_logs (db w') = observe_logs (db w) ++ [entry]
    ∧ ObserveLog.module entry = "r0"
    ∧ ObserveLog.action entry = "updated".
Proof.
  intros Hr. unfold update_recovery. run. rewrite Hr. simpl.
  destruct upd as [[[|??]|] [[|??]|] [[|??]|]]; simpl;
    (eexists _, _, _; split; [reflexivity|]; simpl; rewrite lookup_insert_eq;
     repeat split; lia).
Qed.

(** C6. An update of an existing recovery succeeds and overwrites the
    status, the measures and the notes each only when the request carries
    a non-empty value for it; a field that is left out, an empty list of
    measures, an empty status and empty notes leave the stored value as it
    was.  In particular an update that carries only a status leaves the
    measures and the notes as they were. *)
Theorem update_recovery_partial w recovery_id upd r :
  recoveries (db w) !! recovery_id = Some r →
  ∃ r' w',
    update_recovery clock uuid4 recovery_id upd w = (Ok r', w')
    ∧ recoveries (db w') !! recovery_id = Some r'
    ∧ (∀ v, RecoveryUpdate.status upd = Some v → v ≠ "" → Recovery.status r' = v)
    ∧ (blank "" (RecoveryUpdate.status upd) → Recovery.status r' = Recovery.status r)
    ∧ (∀ v, RecoveryUpdate.measures upd = Some v → v ≠ [] →
            Recovery.measures r' = Some v)
    ∧ (blank [] (RecoveryUpdate.measures upd) →
       Recovery.measures r' = Recovery.measures r)
    ∧ (∀ v, RecoveryUpdate.notes upd = Some v → v ≠ "" → Recovery.notes r' = Some v)
    ∧ (blank "" (RecoveryUpdate.notes upd) → Recovery.notes r' = Recovery.notes r)
    ∧ (RecoveryUpdate.measures upd = None → RecoveryUpdate.notes upd = None →
       Recovery.measures r' = Recovery.measures r
       ∧ Recovery.notes r' = Recovery.notes r).
Proof.
  intros Hr.
  destruct (update_recovery_run w recovery_id upd r Hr)
    as (r' & w' & entry & Hrun & Hr' & Hst & Hms & Hnt & _).
  exists r', w'. split; [done|]. split; [done|].
  rewrite Hst, Hms, Hnt. clear. unfold blank.
  destruct upd as [[[|??]|] [[|??]|] [[|??]|]]; simpl;
    repeat split; intros; destruct_or?; by simplify_eq.
Qed.

(** C10. An update that carries nothing, no field or only empty values, is
    not refused on an existing recovery: it succeeds, the stored status,
    measures and notes are as before, [updated_at] is set to the clock
    reading taken by the call, and one audit entry with module "r0" and
    action "updated" is appended. *)
Theorem update_recovery_empty w recovery_id upd r :
  recoveries (db w) !! recovery_id = Some r →
  blank "" (RecoveryUpdate.status upd) →
  blank [] (RecoveryUpdate.measures upd) →
  blank "" (RecoveryUpdate.notes upd) →
  ∃ r' w' entry,
    update_recovery clock uuid4 recovery_id upd w = (Ok r', w')
    ∧ recoveries (db w') !! recovery_id = Some r'
    ∧ Recovery.status r' = Recovery.status r
    ∧ Recovery.measures r' = Recovery.measures r
    ∧ Recovery.notes r' = Recovery.notes r
    ∧ Recovery.updated_at r' = clock (ticks w)
    ∧ (ticks w < ticks w')%nat
    ∧ observe_logs (db w') = observe_logs (db w) ++ [entry]
    ∧ ObserveLog.module entry = "r0"
    ∧ ObserveLog.action entry = "updated".
Proof.
  intros Hr Hst Hms Hnt.
  destruct (update_recovery_run w recovery_id upd r Hr)
    as (r' & w' & entry & Hrun & Hr' & Est & Ems & Ent & Hrest).
  exists r', w', entry. split; [done|]. split; [done|].
  split; [|split; [|split; [|done]]].
  - rewrite Est. by destruct Hst as [->| ->].
  - rewrite Ems. by destruct Hms as [->| ->].
  - rewrite Ent. by destruct Hnt as [->| ->].
Qed.

End Recoveries.

(** ** The log query *)

Section Logs.

Global Instance dt_le_total : Total dt_le.
Proof. intros a b. unfold dt_le. lia. Qed.

Global Instance dt_le_trans : Transitive dt_le.
Proof. intros a b c. unfold dt_le. lia. Qed.

Global Instance newest_first_total : Total newest_first.
Proof. intros a b. unfold newest_first. apply (total dt_le). Qed.

Global Instance newest_first_trans : Transitive newest_first.
Proof. intros a b c. unfold newest_first. intros. by trans (ObserveLog.timestamp b). Qed.

Lemma selected_subseteq module target_id d :
  selected module target_id d ⊆ observe_logs d.
Proof.
  intros x. unfold selected.
  destruct module as [[|??]|], target_id as [[|??]|];
    rewrite ?list_elem_of_filter; tauto.
Qed.

Lemma get_logs_in_range module target_id n d :
  (0 <= n <= 1000)%Z →
  get_logs module target_id (Some n) d
    = Ok (take (Z.to_nat n) (merge_sort newest_first (selected module target_id d))).
Proof.
  intros Hn. unfold get_logs, sql_limit. simpl.
  destruct (Z.ltb_spec 1000 n); [lia|].
  destruct (Z.ltb_spec n (-9223372036854775808)); [lia|].
  destruct (Z.ltb_spec n 0); [lia|].
  reflexivity.
Qed.

Lemma StronglySorted_take {A} (R : relation A) n (l : list A) :
  StronglySorted R l → StronglySorted R (take n l).
Proof.
  intros H. rewrite <- (take_drop n l) in H. by apply StronglySorted_app_1_l in H.
Qed.

(** C8, as the code has it.  For a limit [n] between 0 and 1000 the query
    succeeds with at most [n] entries of the log, which is [min n 1000],
    every one of them at least as recent as all that follow it; a query
    without a limit is a query with limit 100; and a limit above 1000 is
    refused by the validation of the request, not lowered to 1000. *)
Theorem get_logs_limit module target_id d :
  (∀ n, (0 <= n <= 1000)%Z →
     ∃ l, get_logs module target_id (Some n) d = Ok l
          ∧ (Z.of_nat (length l) <= Z.min n 1000)%Z
          ∧ StronglySorted newest_first l
          ∧ l ⊆ observe_logs d)
  ∧ get_logs module target_id None d = get_logs module target_id (Some 100%Z) d
  ∧ (∀ n, (1000 < n)%Z →
       get_logs module target_id (Some n) d = Raise RequestValidationError).
Proof.
  split; [|split].
  - intros n Hn. eexists. split; [by apply get_logs_in_range|].
    split; [rewrite length_take; lia|]. split.
    + apply StronglySorted_take, StronglySorted_merge_sort; apply _.
    + etrans; [apply subseteq_take|]. intros x.
      rewrite merge_sort_Permutation. apply selected_subseteq.
  - reflexivity.
  - intros n Hn. unfold get_logs. simpl. by destruct (Z.ltb_spec 1000 n); [|lia].
Qed.

End Logs.

Lemma populate_reachable n : reachable demo_clock demo_uuid4 (populate n init_world).
Proof. induction n; simpl; [constructor|by constructor]. Qed.

Lemma populate_size n : size (h_events (db (populate n init_world))) = n.
Proof.
  induction n as [|n IH]; [done|]. simpl.
  destruct (create_event_run demo_clock demo_uuid4 (populate n init_world) demo_event)
    as (e & w' & Hrun & _ & _ & Hfresh & Hins).
  { apply (reachable_wf demo_clock demo_uuid4), populate_reachable. }
  { reflexivity. }
  rewrite Hrun. simpl. rewrite Hins, map_size_insert_None by done. by rewrite IH.
Qed.

(** ** The claims on the concrete run *)

(** At the 100000th creation the sequence number has six digits. *)
Lemma create_event_six_digit_seq :
  reachable demo_clock demo_uuid4 (populate (N.to_nat 99999) init_world)
  ∧ ∃ e w',
      create_event demo_clock demo_uuid4 demo_event (populate (N.to_nat 99999) init_world)
        = (Ok e, w')
      ∧ HEvent.h_id e = "HIR-2026-100000"
      ∧ h_id_pattern (HEvent.h_id e) = false.
Proof.
  split; [apply populate_reachable|].
  destruct (create_event_run demo_clock demo_uuid4
              (populate (N.to_nat 99999) init_world) demo_event)
    as (e & w' & Hrun & Hid & _).
  { apply (reachable_wf demo_clock demo_uuid4), populate_reachable. }
  { reflexivity. }
  exists e, w'. split; [exact Hrun|].
  rewrite Hid, populate_size, N2Nat.id.
  change (dt_year (demo_clock _)) with 2026%N.
  split; vm_compute; reflexivity.
Qed.

(** The trail of the run, as the query returns it: newest first. *)
Example demo_audit_trail :
  ∃ l, get_logs None None None (db w_released) = Ok l
       ∧ ObserveLog.action <$> l = ["released"; "activated"; "created"].
Proof. eexists. split; vm_compute; reflexivity. Qed.

(** A limit of 1001 is refused, not lowered. *)
Lemma get_logs_rejects_1001 :
  get_logs None None (Some 1001%Z) (db w_released) = Raise RequestValidationError
  ∧ ¬ ∃ l, get_logs None None (Some 1001%Z) (db w_released) = Ok l.
Proof. split; [reflexivity|]. intros [l Hl]. discriminate Hl. Qed.

Lemma release_stop_only_once_witness :
  release_stop demo_clock demo_uuid4 "STOP-2026-00001" demo_release w_released
    = (Raise (already_released "STOP-2026-00001"), w_released)
  ∧ release_stop demo_clock demo_uuid4 "STOP-2026-00001" demo_release
      (create_event demo_clock demo_uuid4 demo_event w_released).2
    = (Raise (already_released "STOP-2026-00001"),
       (create_event demo_clock demo_uuid4 demo_event w_released).2).
Proof.
  destruct (release_stop_only_once demo_clock demo_uuid4) as [Hfirst Hlater]. split.
  - apply (Hfirst w_released "STOP-2026-00001" demo_release demo_released_stop);
      vm_compute; reflexivity.
  - apply (Hlater w_stopped "STOP-2026-00001" demo_release demo_released_stop w_released).
    + vm_compute; reflexivity.
    + apply evolves_create_event, evolves_refl.
Defined.

Lemma w_event_reachable : reachable demo_clock demo_uuid4 w_event.
Proof. apply evolves_create_event, evolves_refl. Qed.

Lemma w_stopped_reachable : reachable demo_clock demo_uuid4 w_stopped.
Proof. apply evolves_activate_stop, w_event_reachable. Qed.

Lemma activate_stop_event_status_witness :
  (∃ s w' e' t,
     activate_stop demo_clock demo_uuid4 demo_stop w_event = (Ok s, w')
     ∧ h_events (db w') !! "HIR-2026-00001" = Some e'
     ∧ HEvent.status e' = "h_stop_active"
     ∧ HEvent.updated_at e' = demo_clock t
     ∧ (ticks w_event <= t < ticks w')%nat)
  ∧ activate_stop demo_clock demo_uuid4 demo_stop init_world
    = (Raise (event_not_found "HIR-2026-00001"), init_world).
Proof.
  split.
  - eapply (proj1 (activate_stop_event_status demo_clock demo_uuid4 w_event demo_stop
                     w_event_reachable)).
    vm_compute; reflexivity.
  - apply (proj2 (activate_stop_event_status demo_clock demo_uuid4 init_world demo_stop
                    (evolves_refl _ _ _))).
    vm_compute; reflexivity.
Defined.

Lemma release_stop_event_effect_witness :
  ∃ s' w' e',
    release_stop demo_clock demo_uuid4 "STOP-2026-00001" demo_release w_stopped
      = (Ok s', w')
    ∧ HStop.status s' = "released"
    ∧ h_events (db w') !! "HIR-2026-00001" = Some e'
    ∧ HEvent.status e' = "investigating".
Proof.
  edestruct (release_stop_event_effect demo_clock demo_uuid4 w_stopped "STOP-2026-00001"
               demo_release) as (s' & w' & Hrun & _ & Hst & Hact & _).
  { vm_compute; reflexivity. }
  { vm_compute; discriminate. }
  edestruct Hact as (e' & t & He' & Hst' & _).
  { vm_compute; reflexivity. }
  { vm_compute; reflexivity. }
  by exists s', w', e'.
Defined.

Lemma release_stop_rejects_only_released_witness :
  ∃ t w',
    release_stop demo_clock demo_uuid4 "STOP-2026-00001" demo_release w_stopped
      = (Ok (HStop.release t "root cause identified"
               (HStop.mk "STOP-2026-00001" "HIR-2026-00001" "scope_reduction" "active"
                  (Some "recommendation-engine-v3") "critical harm threshold exceeded"
                  "system" (mk_datetime 2026 86400000000) None None (mk_datetime 2026 6))),
         w').
Proof.
  edestruct (release_stop_rejects_only_released demo_clock demo_uuid4 w_stopped
               "STOP-2026-00001" demo_release) as [_ Hok].
  { vm_compute; reflexivity. }
  destruct Hok as (t & w' & Hrun & _); [vm_compute; discriminate|].
  exists t, w'. exact Hrun.
Defined.

Lemma audit_log_append_only_witness :
  appends_one init_world w_event "h_event" "created"
  ∧ appends_one w_event w_stopped "h_stop" "activated"
  ∧ appends_one w_stopped w_released "h_stop" "released"
  ∧ observe_logs (db w_event) `prefix_of` observe_logs (db w_released).
Proof.
  destruct (audit_log_append_only demo_clock demo_uuid4)
    as (Hcreate & Hactivate & Hrelease & _ & _ & _ & Hprefix).
  split; [|split; [|split]].
  - eapply (Hcreate init_world demo_event). vm_compute; reflexivity.
  - eapply (Hactivate w_event demo_stop). vm_compute; reflexivity.
  - eapply (Hrelease w_stopped "STOP-2026-00001" demo_release). vm_compute; reflexivity.
  - apply Hprefix. apply evolves_release_stop, evolves_activate_stop, evolves_refl.
Defined.

Lemma create_event_h_id_witness :
  (∃ e w',
     create_event demo_clock demo_uuid4 demo_event w_event = (Ok e, w')
     ∧ HEvent.h_id e = "HIR-2026-00002"
     ∧ HEvent.status e = "registered"
     ∧ h_id_pattern (HEvent.h_id e) = true)
  ∧ ∃ w',
      create_event demo_clock demo_uuid4 huge_event w_event = (Raise OverflowError, w')
      ∧ db w' = db w_event.
Proof.
  split.
  - destruct (proj1 (create_event_h_id demo_clock demo_uuid4 w_event demo_event
                       w_event_reachable) eq_refl)
      as (e & w' & Hrun & Hid & _ & _ & _ & _ & Hst & _ & _ & _ & Hpat).
    exists e, w'. split; [exact Hrun|]. split; [rewrite Hid; vm_compute; reflexivity|].
    split; [exact Hst|]. apply Hpat; vm_compute; [split; discriminate|reflexivity].
  - exact (proj2 (create_event_h_id demo_clock demo_uuid4 w_event huge_event
                    w_event_reachable) eq_refl).
Defined.

Lemma update_event_status_overwrites_witness :
  update_event_status demo_clock demo_uuid4 "HIR-2026-00007" demo_resolved w_event
    = (Raise (event_not_found "HIR-2026-00007"), w_event)
  ∧ ∃ e' w' entry,
      update_event_status demo_clock demo_uuid4 "HIR-2026-00001" demo_resolved w_stopped
        = (Ok e', w')
      ∧ HEvent.status e' = "resolved"
      ∧ observe_logs (db w') = observe_logs (db w_stopped) ++ [entry]
      ∧ ObserveLog.details entry
        = Some (JDict [("old", JStr "h_stop_active"); ("new", JStr "resolved");
                       ("reason", JStr "root cause fixed")]).
Proof.
  split.
  - apply (proj1 (update_event_status_overwrites demo_clock demo_uuid4 w_event
                    "HIR-2026-00007" demo_resolved)).
    vm_compute; reflexivity.
  - edestruct (proj2 (update_event_status_overwrites demo_clock demo_uuid4 w_stopped
                        "HIR-2026-00001" demo_resolved))
      as (e' & w' & entry & Hrun & _ & Hst & _ & _ & Hlog & _ & _ & _ & Hdet).
    { vm_compute; reflexivity. }
    exists e', w', entry. split; [exact Hrun|]. split; [exact Hst|].
    split; [exact Hlog|]. exact Hdet.
Defined.

Lemma update_recovery_partial_witness :
  ∃ r' w',
    update_recovery demo_clock demo_uuid4 "R0-2026-00001" demo_progress w_recovering
      = (Ok r', w')
    ∧ Recovery.status r' = "in_progress"
    ∧ Recovery.measures r' = RecoveryCreate.measures demo_recovery
    ∧ Recovery.notes r' = RecoveryCreate.notes demo_recovery.
Proof.
  edestruct (update_recovery_partial demo_clock demo_uuid4 w_recovering "R0-2026-00001"
               demo_progress)
    as (r' & w' & Hrun & _ & Hst & _ & _ & _ & _ & _ & Hrest).
  { vm_compute; reflexivity. }
  destruct Hrest as [Hms Hnt]; [reflexivity..|].
  exists r', w'. split; [exact Hrun|]. split; [by apply Hst|]. by split.
Defined.

Lemma update_recovery_empty_witness :
  ∃ r' w' entry,
    update_recovery demo_clock demo_uuid4 "R0-2026-00001" demo_nothing w_recovering
      = (Ok r', w')
    ∧ Recovery.status r' = "initiated"
    ∧ Recovery.measures r' = RecoveryCreate.measures demo_recovery
    ∧ Recovery.notes r' = RecoveryCreate.notes demo_recovery
    ∧ observe_logs (db w') = observe_logs (db w_recovering) ++ [entry]
    ∧ ObserveLog.module entry = "r0"
    ∧ ObserveLog.action entry = "updated".
Proof.
  edestruct (update_recovery_empty demo_clock demo_uuid4 w_recovering "R0-2026-00001"
               demo_nothing)
    as (r' & w' & entry & Hrun & _ & Hst & Hms & Hnt & _ & _ & Hlog & Hmod & Hact).
  { vm_compute; reflexivity. }
  { right; reflexivity. }
  { right; reflexivity. }
  { left; reflexivity. }
  by exists r', w', entry.
Defined.

Lemma get_logs_limit_witness :
  ∃ l, get_logs (Some "h_stop") None (Some 1%Z) (db w_released) = Ok l
       ∧ (Z.of_nat (length l) <= 1)%Z
       ∧ StronglySorted newest_first l.
Proof.
  destruct (proj1 (get_logs_limit (Some "h_stop") None (db w_released)) 1%Z)
    as (l & Hrun & Hlen & Hsorted & _); [lia|].
  exists l. split; [exact Hrun|]. split; [exact Hlen|exact Hsorted].
Defined.

(** * Further properties of the handlers *)

(** ** Every handler takes one of the steps *)

Section Steps.

Variable clock : nat → datetime.
Variable uuid4 : nat → string.

Lemma create_event_db_step ev w :
  db_step (db w) (db (create_event clock uuid4 ev w).2).
Proof. unfold create_event. run. branches; refused_or db_step_create_event. Qed.

Lemma update_event_status_db_step h_id upd w :
  db_step (db w) (db (update_event_status clock uuid4 h_id upd w).2).
Proof.
  unfold update_event_status. run. branches; refused_or db_step_update_event_status.
Qed.

Lemma activate_stop_db_step stop w :
  db_step (db w) (db (activate_stop clock uuid4 stop w).2).
Proof.
  unfold activate_stop. run. branches; try apply db_step_refused.
  unfold with_logs, with_events, with_stops. simpl.
  match goal with
  | |- db_step _ (mk_db _ (<[?k := ?s]> _) _ (_ ++ [?x])) =>
      eapply (db_step_activate_stop (db w) s _ _ x); unfold log_entry_for; simpl; eauto
  end.
Qed.

Lemma release_stop_db_step stop_id rel w :
  db_step (db w) (db (release_stop clock uuid4 stop_id rel w).2).
Proof.
  unfold release_stop. run. branches; try apply db_step_refused;
    unfold with_logs, with_events, with_stops; simpl;
    (eapply db_step_release_stop;
     [ eassumption
     | by apply String.eqb_neq
     | first [ by left | right; eexists _, _; split; [eassumption|];
                         split; [by apply String.eqb_eq|reflexivity] ]
     | unfold log_entry_for; simpl; auto ]).
Qed.

Lemma initiate_recovery_db_step rc w :
  db_step (db w) (db (initiate_recovery clock uuid4 rc w).2).
Proof.
  unfold initiate_recovery. run. branches; try apply db_step_refused.
  unfold with_logs, with_events, with_recoveries. simpl.
  match goal with
  | |- db_step _ (mk_db _ _ (<[?k := ?r]> _) (_ ++ [?x])) =>
      eapply (db_step_initiate_recovery (db w) r _ _ x);
        unfold log_entry_for; simpl; eauto
  end.
Qed.

Lemma update_recovery_db_step recovery_id upd w :
  db_step (db w) (db (update_recovery clock uuid4 recovery_id upd w).2).
Proof.
  unfold update_recovery. run.
  destruct (recoveries (db w) !! recovery_id) as [r|] eqn:Hr; simpl;
    [|apply db_step_refused].
  unfold with_logs, with_recoveries. simpl.
  eapply db_step_update_recovery; [eassumption|..];
    try (unfold log_entry_for; simpl; by auto);
    by destruct upd as [[[|??]|] [[|??]|] [[|??]|]].
Qed.

(** Any number of requests is a sequence of such steps. *)
Lemma evolves_db_steps w w' :
  evolves clock uuid4 w w' → rtc db_step (db w) (db w').
Proof.
  induction 1; [done|..]; (eapply rtc_r; [eassumption|]);
    auto using create_event_db_step, update_event_status_db_step, activate_stop_db_step,
      release_stop_db_step, initiate_recovery_db_step, update_recovery_db_step.
Qed.

End Steps.

(** ** What the rows of the tables go through *)

Section Rows.

Lemma touch_same e : HEvent.touch (HEvent.status e) (HEvent.updated_at e) e = e.
Proof. by destruct e. Qed.

Lemma db_step_event d d' k e :
  db_step d d' → h_events d !! k = Some e →
  ∃ s t, h_events d' !! k = Some (HEvent.touch s t e).
Proof.
  assert (Hkeep : ∀ (E : gmap string HEvent.t) j s t e0,
            E !! k = Some e → E !! j = Some e0 →
            ∃ s' t', <[j := HEvent.touch s t e0]> E !! k = Some (HEvent.touch s' t' e)).
  { intros E j s t e0 He He0. destruct (decide (j = k)) as [->|Hne].
    - rewrite lookup_insert_eq. simplify_eq. eauto.
    - rewrite lookup_insert_ne by done. exists (HEvent.status e), (HEvent.updated_at e).
      by rewrite touch_same. }
  assert (Hsame : ∀ (E : gmap string HEvent.t),
            E !! k = Some e → ∃ s t, E !! k = Some (HEvent.touch s t e)).
  { intros E He. exists (HEvent.status e), (HEvent.updated_at e). by rewrite touch_same. }
  destruct 1 as [d|d e0 x Hnew|d j e0 s t x He0|d s0 e0 t x He0
                 |d j s0 t why E' x Hs0 Hst [->|(e0 & t' & He0 & _ & ->)]
                 |d r e0 t x He0|d j r r' x]; simpl; intros He; eauto.
  rewrite lookup_insert_ne; [by apply Hsame|]. intros Heq. congruence.
Qed.

Lemma db_steps_event d d' k e :
  rtc db_step d d' → h_events d !! k = Some e →
  ∃ s t, h_events d' !! k = Some (HEvent.touch s t e).
Proof.
  intros Hsteps. revert e. induction Hsteps as [d|d d1 d2 Hstep _ IH]; intros e He.
  - exists (HEvent.status e), (HEvent.updated_at e). by rewrite touch_same.
  - destruct (db_step_event _ _ _ _ Hstep He) as (s & t & He1).
    destruct (IH _ He1) as (s' & t' & He2). by exists s', t'.
Qed.

Lemma db_step_stop d d' k s :
  db_step d d' → h_stops d !! k = Some s →
  h_stops d' !! k = Some s
  ∨ HStop.status s ≠ "released" ∧ ∃ t why, h_stops d' !! k = Some (HStop.release t why s).
Proof.
  destruct 1 as [d|d e0 x Hnew|d j e0 st t x He0|d s0 e0 t x He0 Hnew
                 |d j s0 t why E' x Hs0 Hst _|d r e0 t x He0|d j r r' x];
    simpl; intros Hs; auto.
  - left. rewrite lookup_insert_ne; [done|]. intros Heq. congruence.
  - destruct (decide (j = k)) as [->|Hne].
    + right. simplify_eq. split; [done|]. rewrite lookup_insert_eq. eauto.
    + left. by rewrite lookup_insert_ne.
Qed.

Lemma db_steps_stop d d' k s :
  rtc db_step d d' → h_stops d !! k = Some s →
  h_stops d' !! k = Some s
  ∨ HStop.status s ≠ "released" ∧ ∃ t why, h_stops d' !! k = Some (HStop.release t why s).
Proof.
  intros Hsteps. revert s. induction Hsteps as [d|d d1 d2 Hstep _ IH]; intros s Hs;
    [by left|].
  destruct (db_step_stop _ _ _ _ Hstep Hs) as [Hs1|(Hne & t & why & Hs1)]; [by apply IH|].
  right. split; [done|]. exists t, why.
  by destruct (IH _ Hs1) as [Hs2|(Hne' & _)].
Qed.

Lemma db_step_recovery d d' k r :
  db_step d d' → recoveries d !! k = Some r →
  ∃ r', recoveries d' !! k = Some r'
        ∧ Recovery.recovery_id r' = Recovery.recovery_id r
        ∧ Recovery.h_id r' = Recovery.h_id r
        ∧ Recovery.affected_count r' = Recovery.affected_count r
        ∧ Recovery.created_at r' = Recovery.created_at r.
Proof.
  destruct 1 as [d|d e0 x Hnew|d j e0 st t x He0|d s0 e0 t x He0 Hnew
                 |d j s0 t why E' x Hs0 Hst _|d r0 e0 t x He0 Hnew|d j r0 r' x Hr0];
    simpl; intros Hr; eauto 10.
  - exists r. rewrite lookup_insert_ne; [done|]. intros Heq. congruence.
  - destruct (decide (j = k)) as [->|Hne].
    + exists r'. rewrite lookup_insert_eq. simplify_eq. done.
    + exists r. by rewrite lookup_insert_ne.
Qed.

End Rows.

(** ** Rows are kept *)

Section Lifetimes.

Variable clock : nat → datetime.
Variable uuid4 : nat → string.

(** X1. No sequence of requests removes an event or changes anything of it
    but its status and its [updated_at]: identifier, description, severity,
    source, [created_at] and the rest stay as they were registered. *)
Theorem events_are_kept w w' k e :
  evolves clock uuid4 w w' → h_events (db w) !! k = Some e →
  ∃ s t, h_events (db w') !! k = Some (HEvent.touch s t e).
Proof. intros Hev. apply db_steps_event. by eapply evolves_db_steps. Qed.

(** X2. No sequence of requests removes a stop, and a stop changes at most
    once in its life: the row is either what it was, or what one release of
    it made of it, and only a stop that was not released can have changed. *)
Theorem stops_change_once w w' k s :
  evolves clock uuid4 w w' → h_stops (db w) !! k = Some s →
  h_stops (db w') !! k = Some s
  ∨ HStop.status s ≠ "released"
    ∧ ∃ t why, h_stops (db w') !! k = Some (HStop.release t why s).
Proof. intros Hev. apply db_steps_stop. by eapply evolves_db_steps. Qed.

(** X3. No sequence of requests removes a recovery or changes its
    identifier, the event it belongs to, its affected count or its
    [created_at]. *)
Theorem recoveries_are_kept w w' k r :
  evolves clock uuid4 w w' → recoveries (db w) !! k = Some r →
  ∃ r', recoveries (db w') !! k = Some r'
        ∧ Recovery.recovery_id r' = Recovery.recovery_id r
        ∧ Recovery.h_id r' = Recovery.h_id r
        ∧ Recovery.affected_count r' = Recovery.affected_count r
        ∧ Recovery.created_at r' = Recovery.created_at r.
Proof.
  intros Hev. apply evolves_db_steps in Hev. revert r.
  induction Hev as [d|d d1 d2 Hstep _ IH]; intros r Hr; [by exists r|].
  destruct (db_step_recovery _ _ _ _ Hstep Hr) as (r1 & Hr1 & E1 & E2 & E3 & E4).
  destruct (IH _ Hr1) as (r2 & Hr2 & F1 & F2 & F3 & F4).
  exists r2. split; [done|]. repeat split; congruence.
Qed.

End Lifetimes.

(** ** Invariants of the reachable databases *)

Section Reachable.

Variable clock : nat → datetime.
Variable uuid4 : nat → string.

Lemma db_step_stops_shaped d d' : db_step d d' → stops_shaped d → stops_shaped d'.
Proof.
  destruct 1 as [d|d e0 x Hnew|d j e0 st t x He0|d s0 e0 t x He0 Hnew Hst Hat Hwhy
                 |d j s0 t why E' x Hs0 Hst _|d r e0 t x He0|d j r r' x];
    simpl; intros Hinv k s; simpl; try apply Hinv.
  - rewrite lookup_insert. case_decide; [|apply Hinv]. intros [= <-]. by left.
  - rewrite lookup_insert. case_decide; [|apply Hinv]. intros [= <-]. right. simpl. eauto.
Qed.

Lemma db_step_references d d' : db_step d d' → references_resolve d → references_resolve d'.
Proof.
  intros Hstep [Hs Hr].
  assert (Hdom : ∀ k, is_Some (h_events d !! k) → is_Some (h_events d' !! k)).
  { intros k [e He]. destruct (db_step_event _ _ _ _ Hstep He) as (s & t & He'). eauto. }
  destruct Hstep as [d|d e0 x Hnew|d j e0 st t x He0|d s0 e0 t x He0 Hnew Hst Hat Hwhy
                     |d j s0 t why E' x Hs0 Hst HE'|d r e0 t x He0|d j r r' x Hr0 ? Hh];
    (split; [intros k s Hk|intros k r1 Hk]); apply Hdom; simpl in Hk;
    try (rewrite lookup_insert in Hk; case_decide; simplify_eq); simpl; eauto.
  rewrite Hh. eauto.
Qed.

Lemma next_rowid_in_sequence l :
  ObserveLog.id <$> l = Z.of_nat <$> seq 1 (length l) →
  next_rowid l = Z.of_nat (S (length l)).
Proof.
  unfold next_rowid. intros Hids.
  assert (Hmax : foldr (λ e m, Z.max (ObserveLog.id e) m) 0%Z l
                 = foldr Z.max 0%Z (ObserveLog.id <$> l)).
  { clear. induction l as [|x l IH]; simpl; [done|]. by rewrite IH. }
  rewrite Hmax, Hids. generalize (length l). clear. intros n.
  assert (H : ∀ a, foldr Z.max 0%Z (Z.of_nat <$> seq (S a) n) = Z.of_nat (if n is O then O else a + n)).
  { induction n as [|n IH]; intros a; simpl; [done|]. rewrite IH. destruct n; lia. }
  rewrite H. destruct n; lia.
Qed.

Lemma db_step_log_ids d d' :
  db_step d d' → log_ids_in_sequence d → log_ids_in_sequence d'.
Proof.
  unfold log_ids_in_sequence.
  assert (Hsnoc : ∀ l (x : ObserveLog.t),
            ObserveLog.id <$> l = Z.of_nat <$> seq 1 (length l) →
            ObserveLog.id x = next_rowid l →
            ObserveLog.id <$> l ++ [x] = Z.of_nat <$> seq 1 (length (l ++ [x]))).
  { intros l x Hl Hx. rewrite fmap_app, length_app, seq_app, fmap_app, <- Hl. simpl.
    by rewrite Hx, next_rowid_in_sequence. }
  destruct 1 as [d|d e0 x Hnew ? Hx|d j e0 st t x He0 Hx|d s0 e0 t x He0 Hnew Hst Hat Hwhy Hx
                 |d j s0 t why E' x Hs0 Hst _ Hx|d r e0 t x He0 ? ? Hx
                 |d j r r' x ? ? ? ? ? Hx];
    simpl; intros Hinv; try done; apply Hsnoc; try done; apply Hx.
Qed.

Lemma db_step_creations_logged d d' :
  db_step d d' → creations_logged d → creations_logged d'.
Proof.
  assert (Hold : ∀ l (x : ObserveLog.t) m a k,
            logged (mk_db ∅ ∅ ∅ l) m a k → logged (mk_db ∅ ∅ ∅ (l ++ [x])) m a k).
  { intros l x m a k (y & Hy & ?). exists y. split; [|done]. simpl in *.
    apply elem_of_app. by left. }
  assert (Hnew : ∀ l (x : ObserveLog.t) m a k,
            ObserveLog.module x = m → ObserveLog.action x = a →
            ObserveLog.target_id x = Some k → logged (mk_db ∅ ∅ ∅ (l ++ [x])) m a k).
  { intros l x m a k ???. exists x. split; [|done]. simpl.
    apply elem_of_app. right. by apply list_elem_of_singleton. }
  unfold creations_logged, logged in *. simpl in *.
  destruct 1 as [d|d e0 x ? ? (_&?&?&?)|d j e0 st t x He0 (_&?&?&?)
                 |d s0 e0 t x He0 ? ? ? ? (_&?&?&?)
                 |d j s0 t why E' x Hs0 Hst HE' (_&?&?&?)|d r e0 t x He0 ? ? (_&?&?&?)
                 |d j r r' x Hr0 ? ? ? ? (_&?&?&?)];
    simpl; intros (HE & HS & HR); [done|..];
    (split; [intros k e|split; [intros k s|intros k r1]]);
    try (destruct HE' as [->|(e1 & t1 & He1 & _ & ->)]);
    rewrite ?lookup_insert; try case_decide; subst; intros He;
    try (by apply Hnew); apply Hold; eauto.
Qed.

(** What holds of the empty database and is kept by every step holds of
    every reachable database. *)
Lemma reachable_invariant (I : DB → Prop) w :
  I empty_db → (∀ d d', db_step d d' → I d → I d') →
  reachable clock uuid4 w → I (db w).
Proof.
  intros Hinit Hstep Hreach. apply evolves_db_steps in Hreach.
  eapply (rtc_ind_r I empty_db); eauto.
Qed.

Lemma reachable_stops_shaped w : reachable clock uuid4 w → stops_shaped (db w).
Proof.
  apply reachable_invariant; eauto using db_step_stops_shaped.
  intros k s. simpl. by rewrite lookup_empty.
Qed.

(** X4. In every reachable database a stop is either active, with no
    release time and no release reason, or released, with both: the status
    "extended" never occurs, and release data never occur on an active
    stop. *)
Theorem stops_are_active_or_released w k s :
  reachable clock uuid4 w → h_stops (db w) !! k = Some s → stop_shape s.
Proof.
  intros Hreach. by apply reachable_stops_shaped.
Qed.

Lemma reachable_references w :
  reachable clock uuid4 w → references_resolve (db w).
Proof.
  apply reachable_invariant; eauto using db_step_references.
  split; intros k s; simpl; by rewrite lookup_empty.
Qed.

(** X5. In every reachable database the event that a stop or a recovery
    names exists: the check made when the row is created is never
    invalidated afterwards. *)
Theorem references_always_resolve w :
  reachable clock uuid4 w → references_resolve (db w).
Proof. apply reachable_references. Qed.

(** X6. In every reachable database the log rows carry the ids 1, 2, 3, ...
    in the order of their insertion; in particular no two rows share an
    id. *)
Theorem log_ids_are_consecutive w :
  reachable clock uuid4 w →
  log_ids_in_sequence (db w) ∧ NoDup (ObserveLog.id <$> observe_logs (db w)).
Proof.
  intros Hreach.
  assert (Hseq : log_ids_in_sequence (db w)).
  { revert Hreach. apply reachable_invariant; eauto using db_step_log_ids. done. }
  split; [done|]. rewrite Hseq. apply NoDup_fmap; [apply _|]. apply NoDup_seq.
Qed.

(** X7. In every reachable database each event, stop and recovery has its
    creation in the log: an entry "h_event"/"created", "h_stop"/"activated"
    or "r0"/"initiated" whose target is the row's key. *)
Theorem every_row_is_traceable w :
  reachable clock uuid4 w → creations_logged (db w).
Proof.
  apply reachable_invariant; eauto using db_step_creations_logged.
  split; [|split]; intros k x; simpl; by rewrite lookup_empty.
Qed.

End Reachable.

(** ** Creating and reading rows *)

Section Creation.

Variable clock : nat → datetime.
Variable uuid4 : nat → string.

(** X8. In a reachable world a creation whose [affected_count] is absent
    or fits 64 bits succeeds, the id that it returns was unknown before, so
    that reading it then is answered with status 404, and reading it
    afterwards returns exactly the record that the creation returned,
    without changing anything. *)
Theorem get_event_after_create w ev :
  reachable clock uuid4 w →
  fits_integer (HEventCreate.affected_count ev) = true →
  ∃ e w',
    create_event clock uuid4 ev w = (Ok e, w')
    ∧ get_event (HEvent.h_id e) w = (Raise (event_not_found (HEvent.h_id e)), w)
    ∧ get_event (HEvent.h_id e) w' = (Ok e, w').
Proof.
  intros Hreach Hfits. pose proof (reachable_wf _ _ _ Hreach) as Hwf.
  destruct (create_event_run clock uuid4 w ev Hwf Hfits)
    as (e & w' & Hrun & _ & _ & Hfresh & Hins).
  exists e, w'. split; [done|]. unfold get_event. run.
  by rewrite Hfresh, Hins, lookup_insert_eq.
Qed.

(** X9. In a reachable world, activating a stop on an existing event stores
    one new stop under a fresh id "STOP-", year, "-", one more than the
    number of stops, padded to five digits.  The stop is active, has no
    release time and no release reason, and carries the fields of the
    request; the recoveries and all other events and stops are as before. *)
Theorem activate_stop_creates w stop e :
  reachable clock uuid4 w →
  h_events (db w) !! HStopCreate.h_id stop = Some e →
  ∃ s w',
    activate_stop clock uuid4 stop w = (Ok s, w')
    ∧ HStop.stop_id s
      = fmt_id "STOP" (dt_year (clock (ticks w))) (N.of_nat (size (h_stops (db w))) + 1)
    ∧ HStop.status s = "active"
    ∧ HStop.released_at s = None
    ∧ HStop.release_reason s = None
    ∧ HStop.h_id s = HStopCreate.h_id stop
    ∧ HStop.measure s = HStopCreate.measure stop
    ∧ HStop.scope_target s = HStopCreate.scope_target stop
    ∧ HStop.reason s = HStopCreate.reason stop
    ∧ HStop.initiated_by s = HStopCreate.initiated_by stop
    ∧ HStop.review_deadline s = HStopCreate.review_deadline stop
    ∧ h_stops (db w) !! HStop.stop_id s = None
    ∧ h_stops (db w') = <[HStop.stop_id s := s]> (h_stops (db w))
    ∧ recoveries (db w') = recoveries (db w)
    ∧ (∀ k, k ≠ HStopCreate.h_id stop → h_events (db w') !! k = h_events (db w) !! k).
Proof.
  intros Hreach He. destruct (reachable_wf _ _ _ Hreach) as (_ & Hwf & _).
  pose proof (ids_wf_fresh _ _ _ (dt_year (clock (ticks w))) Hwf) as Hfresh.
  unfold activate_stop. run. rewrite He. simpl. rewrite Hfresh. simpl.
  eexists _, _. split; [reflexivity|]. simpl. repeat split; try done.
  intros k Hk. by rewrite lookup_insert_ne.
Qed.

(** What the initiation of a recovery does when the event exists and the
    [affected_count] fits the INTEGER column. *)
Lemma initiate_recovery_run w rc e :
  reachable clock uuid4 w →
  h_events (db w) !! RecoveryCreate.h_id rc = Some e →
  fits_int64 (RecoveryCreate.affected_count rc) = true →
  ∃ r w',
    initiate_recovery clock uuid4 rc w = (Ok r, w')
    ∧ Recovery.recovery_id r
      = fmt_id "R0" (dt_year (clock (ticks w))) (N.of_nat (size (recoveries (db w))) + 1)
    ∧ Recovery.status r = "initiated"
    ∧ Recovery.h_id r = RecoveryCreate.h_id rc
    ∧ Recovery.affected_count r = RecoveryCreate.affected_count rc
    ∧ Recovery.measures r = RecoveryCreate.measures rc
    ∧ Recovery.notes r = RecoveryCreate.notes rc
    ∧ recoveries (db w) !! Recovery.recovery_id r = None
    ∧ recoveries (db w') = <[Recovery.recovery_id r := r]> (recoveries (db w))
    ∧ h_events (db w')
      = <[RecoveryCreate.h_id rc := HEvent.touch "recovering" (clock (S (ticks w))) e]>
          (h_events (db w))
    ∧ (S (ticks w) < ticks w')%nat
    ∧ h_stops (db w') = h_stops (db w).
Proof.
  intros Hreach He Hfits. destruct (reachable_wf _ _ _ Hreach) as (_ & _ & Hwf).
  pose proof (ids_wf_fresh _ _ _ (dt_year (clock (ticks w))) Hwf) as Hfresh.
  unfold initiate_recovery. run. rewrite He. simpl.
  change (fits_integer (Some (RecoveryCreate.affected_count rc)))
    with (fits_int64 (RecoveryCreate.affected_count rc)).
  rewrite Hfits. simpl. rewrite Hfresh. simpl.
  eexists _, _. split; [reflexivity|]. simpl. repeat split; try done; lia.
Qed.

(** X10. In a reachable world, initiating a recovery on an existing event
    with an [affected_count] that fits the 64 bits of the INTEGER column
    stores one new recovery under a fresh id "R0-", year, "-", one more than
    the number of recoveries, padded to five digits, with status "initiated"
    and the fields of the request, and leaves the event with status
    "recovering" and an [updated_at] read from the clock during the call,
    whatever its status was; the stops are as before.  Without such an event
    the request is answered with status 404 and changes nothing.  On an
    existing event with an [affected_count] outside the 64 bits the request
    fails with OverflowError: no recovery is stored, the event keeps its
    status and nothing is logged. *)
Theorem initiate_recovery_creates w rc :
  reachable clock uuid4 w →
  (∀ e, h_events (db w) !! RecoveryCreate.h_id rc = Some e →
     fits_int64 (RecoveryCreate.affected_count rc) = true →
     ∃ r w' e' t,
       initiate_recovery clock uuid4 rc w = (Ok r, w')
       ∧ Recovery.recovery_id r
         = fmt_id "R0" (dt_year (clock (ticks w)))
             (N.of_nat (size (recoveries (db w))) + 1)
       ∧ Recovery.status r = "initiated"
       ∧ Recovery.h_id r = RecoveryCreate.h_id rc
       ∧ Recovery.affected_count r = RecoveryCreate.affected_count rc
       ∧ Recovery.measures r = RecoveryCreate.measures rc
       ∧ Recovery.notes r = RecoveryCreate.notes rc
       ∧ recoveries (db w) !! Recovery.recovery_id r = None
       ∧ recoveries (db w') = <[Recovery.recovery_id r := r]> (recoveries (db w))
       ∧ h_events (db w') !! RecoveryCreate.h_id rc = Some e'
       ∧ e' = HEvent.touch "recovering" (clock t) e
       ∧ (ticks w <= t < ticks w')%nat
       ∧ h_stops (db w') = h_stops (db w))
  ∧ (h_events (db w) !! RecoveryCreate.h_id rc = None →
     initiate_recovery clock uuid4 rc w
       = (Raise (event_not_found (RecoveryCreate.h_id rc)), w))
  ∧ (∀ e, h_events (db w) !! RecoveryCreate.h_id rc = Some e →
     fits_int64 (RecoveryCreate.affected_count rc) = false →
     ∃ w',
       initiate_recovery clock uuid4 rc w = (Raise OverflowError, w')
       ∧ db w' = db w).
Proof.
  intros Hreach. split; [|split].
  - intros e He Hfits.
    destruct (initiate_recovery_run w rc e Hreach He Hfits)
      as (r & w' & Hrun & ? & ? & ? & ? & ? & ? & ? & ? & Hev & ? & ?).
    exists r, w', (HEvent.touch "recovering" (clock (S (ticks w))) e), (S (ticks w)).
    rewrite Hev, lookup_insert_eq. repeat split; try done; lia.
  - intros He. unfold initiate_recovery. run. by rewrite He.
  - intros e He Hfits. unfold initiate_recovery. run. rewrite He. simpl.
    change (fits_integer (Some (RecoveryCreate.affected_count rc)))
      with (fits_int64 (RecoveryCreate.affected_count rc)).
    rewrite Hfits. simpl. by eexists.
Qed.

(** X11. A recovery outlives the stop: when a recovery whose
    [affected_count] fits the 64 bits of the INTEGER column is initiated on
    the event of a stop that is not released and the stop is released next,
    both requests succeed in a reachable world, the stop ends released, and
    the event ends with status "recovering", not "investigating". *)
Theorem recovery_then_release w k s rc rel :
  reachable clock uuid4 w →
  h_stops (db w) !! k = Some s → HStop.status s ≠ "released" →
  RecoveryCreate.h_id rc = HStop.h_id s →
  fits_int64 (RecoveryCreate.affected_count rc) = true →
  ∃ r w1 s' w2 e',
    initiate_recovery clock uuid4 rc w = (Ok r, w1)
    ∧ release_stop clock uuid4 k rel w1 = (Ok s', w2)
    ∧ h_stops (db w2) !! k = Some s'
    ∧ HStop.status s' = "released"
    ∧ h_events (db w2) !! HStop.h_id s = Some e'
    ∧ HEvent.status e' = "recovering".
Proof.
  intros Hreach Hs Hst Hid Hfits.
  destruct (reachable_references clock uuid4 w Hreach) as [Href _].
  destruct (Href _ _ Hs) as [e He]. rewrite <- Hid in He.
  destruct (initiate_recovery_run w rc e Hreach He Hfits)
    as (r & w1 & Hrun1 & _ & _ & _ & _ & _ & _ & _ & _ & Hev1 & _ & Hstops).
  assert (He1 : h_events (db w1) !! RecoveryCreate.h_id rc
                = Some (HEvent.touch "recovering" (clock (S (ticks w))) e))
    by (by rewrite Hev1, lookup_insert_eq).
  assert (Hs1 : h_stops (db w1) !! k = Some s) by (by rewrite Hstops).
  destruct (release_stop_run clock uuid4 w1 k rel s Hs1 Hst) as (w2 & Hrun2 & Hs2 & _ & Hev).
  rewrite <- Hid, He1 in Hev. simpl in Hev.
  eexists r, w1, _, w2, _. split; [done|]. split; [exact Hrun2|].
  split; [by rewrite Hs2, lookup_insert_eq|]. split; [done|].
  rewrite <- Hid, Hev. split; [exact He1|done].
Qed.

(** X12. The event follows the first release, not the last: when two stops
    on the same event are open and the event has status "h_stop_active",
    releasing one of them moves the event to "investigating" while the other
    stop is untouched, still with the status it had. *)
Theorem release_one_of_two_stops w k1 k2 s1 s2 e rel :
  k1 ≠ k2 →
  h_stops (db w) !! k1 = Some s1 → h_stops (db w) !! k2 = Some s2 →
  HStop.status s1 ≠ "released" →
  HStop.h_id s1 = HStop.h_id s2 →
  h_events (db w) !! HStop.h_id s1 = Some e → HEvent.status e = "h_stop_active" →
  ∃ s1' w' e',
    release_stop clock uuid4 k1 rel w = (Ok s1', w')
    ∧ h_stops (db w') !! k2 = Some s2
    ∧ h_events (db w') !! HStop.h_id s2 = Some e'
    ∧ HEvent.status e' = "investigating".
Proof.
  intros Hne Hs1 Hs2 Hst Hid He Hact.
  destruct (release_stop_run clock uuid4 w k1 rel s1 Hs1 Hst)
    as (w' & Hrun & Hstops & _ & Hev).
  rewrite He, Hact in Hev. simpl in Hev. destruct Hev as [Hev _].
  eexists _, w', _. split; [exact Hrun|].
  split; [by rewrite Hstops, lookup_insert_ne|].
  by rewrite <- Hid, Hev, lookup_insert_eq.
Qed.

End Creation.

(** ** What a request leaves alone *)

Section Frames.

Variable clock : nat → datetime.
Variable uuid4 : nat → string.

(** X13. A status update changes one event row and nothing else in the
    three keyed tables: of that event only the status and [updated_at], no
    other event, no stop and no recovery.  In particular setting an event to
    "resolved" releases none of its stops and completes none of its
    recoveries. *)
Theorem update_event_status_frame w h_id upd e' w' :
  update_event_status clock uuid4 h_id upd w = (Ok e', w') →
  (∃ e, h_events (db w) !! h_id = Some e
        ∧ e' = HEvent.touch (HEventStatusUpdate.status upd) (clock (ticks w)) e
        ∧ h_events (db w') = <[h_id := e']> (h_events (db w)))
  ∧ (∀ k, k ≠ h_id → h_events (db w') !! k = h_events (db w) !! k)
  ∧ h_stops (db w') = h_stops (db w)
  ∧ recoveries (db w') = recoveries (db w).
Proof.
  unfold update_event_status. run.
  destruct (h_events (db w) !! h_id) as [e|] eqn:He; simpl; [|done].
  intros [= <- <-]. simpl. split; [by exists e|].
  split; [|done]. intros k Hk. by rewrite lookup_insert_ne.
Qed.

(** X14. An update of a recovery changes one recovery row and nothing else
    in the three keyed tables: the events, and so the status of the event
    the recovery belongs to, the stops and the other recoveries are as
    before, whatever status the recovery is given. *)
Theorem update_recovery_frame w recovery_id upd r' w' :
  update_recovery clock uuid4 recovery_id upd w = (Ok r', w') →
  h_events (db w') = h_events (db w)
  ∧ h_stops (db w') = h_stops (db w)
  ∧ recoveries (db w') = <[recovery_id := r']> (recoveries (db w))
  ∧ (∀ k, k ≠ recovery_id → recoveries (db w') !! k = recoveries (db w) !! k).
Proof.
  unfold update_recovery. run.
  destruct (recoveries (db w) !! recovery_id) as [r|] eqn:Hr; simpl; [|done].
  intros [= <- <-]. simpl. repeat split. intros k Hk. by rewrite lookup_insert_ne.
Qed.

Lemma create_event_failure w ev err w' :
  create_event clock uuid4 ev w = (Raise err, w') → db w' = db w.
Proof. untouched create_event. Qed.

Lemma update_event_status_failure w h_id upd err w' :
  update_event_status clock uuid4 h_id upd w = (Raise err, w') → db w' = db w.
Proof. untouched update_event_status. Qed.

Lemma activate_stop_failure w stop err w' :
  activate_stop clock uuid4 stop w = (Raise err, w') → db w' = db w.
Proof. untouched activate_stop. Qed.

Lemma release_stop_failure w stop_id rel err w' :
  release_stop clock uuid4 stop_id rel w = (Raise err, w') → db w' = db w.
Proof. untouched release_stop. Qed.

Lemma initiate_recovery_failure w rc err w' :
  initiate_recovery clock uuid4 rc w = (Raise err, w') → db w' = db w.
Proof. untouched initiate_recovery. Qed.

Lemma update_recovery_failure w recovery_id upd err w' :
  update_recovery clock uuid4 recovery_id upd w = (Raise err, w') → db w' = db w.
Proof. untouched update_recovery. Qed.

(** X15. A request that is answered with an error has written nothing:
    whichever of the six mutating handlers raises, the four tables are what
    they were before the call. *)
Theorem failed_requests_write_nothing :
  (∀ w ev err w', create_event clock uuid4 ev w = (Raise err, w') → db w' = db w)
  ∧ (∀ w h_id upd err w',
       update_event_status clock uuid4 h_id upd w = (Raise err, w') → db w' = db w)
  ∧ (∀ w stop err w', activate_stop clock uuid4 stop w = (Raise err, w') → db w' = db w)
  ∧ (∀ w stop_id rel err w',
       release_stop clock uuid4 stop_id rel w = (Raise err, w') → db w' = db w)
  ∧ (∀ w rc err w',
       initiate_recovery clock uuid4 rc w = (Raise err, w') → db w' = db w)
  ∧ (∀ w recovery_id upd err w',
       update_recovery clock uuid4 recovery_id upd w = (Raise err, w') → db w' = db w).
Proof.
  repeat split;
    eauto using create_event_failure, update_event_status_failure, activate_stop_failure,
      release_stop_failure, initiate_recovery_failure, update_recovery_failure.
Qed.

(** X16. In a reachable world the id generators never collide, so that the
    only errors are the 404 and 400 that the handlers raise themselves and
    the OverflowError of an [affected_count] outside the 64 bits of its
    INTEGER column: a creation of an event succeeds when its
    [affected_count] is absent or fits and fails only with OverflowError,
    and then the count does not fit; an activation fails only with 404 for
    the event; an initiation fails only with 404 for the event, or with
    OverflowError when the event exists and the count does not fit; a status
    update fails only with 404 for the event, an update of a recovery only
    with 404 for the recovery, and a release only with 404 for the stop or
    400 for a stop already released. *)
Theorem reachable_errors w :
  reachable clock uuid4 w →
  (∀ ev, fits_integer (HEventCreate.affected_count ev) = true →
     ∃ e w', create_event clock uuid4 ev w = (Ok e, w'))
  ∧ (∀ ev err w',
       create_event clock uuid4 ev w = (Raise err, w') →
       err = OverflowError ∧ fits_integer (HEventCreate.affected_count ev) = false)
  ∧ (∀ h_id upd err w',
       update_event_status clock uuid4 h_id upd w = (Raise err, w') →
       err = event_not_found h_id)
  ∧ (∀ stop err w',
       activate_stop clock uuid4 stop w = (Raise err, w') →
       err = event_not_found (HStopCreate.h_id stop))
  ∧ (∀ stop_id rel err w',
       release_stop clock uuid4 stop_id rel w = (Raise err, w') →
       err = HTTPException 404 ("H-Stop " +:+ stop_id +:+ " not found")
       ∨ err = already_released stop_id)
  ∧ (∀ rc err w',
       initiate_recovery clock uuid4 rc w = (Raise err, w') →
       (err = event_not_found (RecoveryCreate.h_id rc)
        ∧ h_events (db w) !! RecoveryCreate.h_id rc = None)
       ∨ (err = OverflowError
          ∧ fits_int64 (RecoveryCreate.affected_count rc) = false
          ∧ is_Some (h_events (db w) !! RecoveryCreate.h_id rc)))
  ∧ (∀ recovery_id upd err w',
       update_recovery clock uuid4 recovery_id upd w = (Raise err, w') →
       err = HTTPException 404 ("Recovery " +:+ recovery_id +:+ " not found")).
Proof.
  intros Hreach. pose proof (reachable_wf _ _ _ Hreach) as Hwf.
  pose proof Hwf as (Hwf_e & Hwf_s & Hwf_r).
  split; [|split; [|split; [|split; [|split; [|split]]]]].
  - intros ev Hfits.
    destruct (create_event_run clock uuid4 w ev Hwf Hfits) as (e & w' & Hrun & _).
    eauto.
  - intros ev err w'. unfold create_event. run.
    destruct (fits_integer (HEventCreate.affected_count ev)); simpl;
      [|by intros [= <- <-]].
    by rewrite (ids_wf_fresh _ _ _ _ Hwf_e).
  - intros h_id upd err w'. unfold update_event_status. run.
    destruct (h_events (db w) !! h_id); simpl; [done|]. by intros [= <- <-].
  - intros stop err w'. unfold activate_stop. run.
    destruct (h_events (db w) !! HStopCreate.h_id stop); simpl; [|by intros [= <- <-]].
    by rewrite (ids_wf_fresh _ _ _ _ Hwf_s).
  - intros stop_id rel err w'. unfold release_stop. run.
    destruct (h_stops (db w) !! stop_id) as [s|]; simpl; [|intros [= <- <-]; by left].
    destruct (String.eqb _ "released"); simpl; [intros [= <- <-]; by right|].
    destruct (h_events (db w) !! HStop.h_id s) as [e|]; simpl; [|done].
    by destruct (String.eqb _ "h_stop_active").
  - intros rc err w'. unfold initiate_recovery. run.
    destruct (h_events (db w) !! RecoveryCreate.h_id rc); simpl;
      [|intros [= <- <-]; by left].
    change (fits_integer (Some (RecoveryCreate.affected_count rc)))
      with (fits_int64 (RecoveryCreate.affected_count rc)).
    destruct (fits_int64 (RecoveryCreate.affected_count rc)); simpl;
      [|intros [= <- <-]; right; eauto].
    by rewrite (ids_wf_fresh _ _ _ _ Hwf_r).
  - intros recovery_id upd err w'. unfold update_recovery. run.
    destruct (recoveries (db w) !! recovery_id); simpl; [done|]. by intros [= <- <-].
Qed.

End Frames.

(** ** The list endpoints *)

Section Listings.

Global Instance latest_first_total {V} (created_at : V → datetime) :
  Total (latest_first created_at).
Proof. intros a b. unfold latest_first. apply (total dt_le). Qed.

Global Instance latest_first_trans {V} (created_at : V → datetime) :
  Transitive (latest_first created_at).
Proof. intros a b c. unfold latest_first. intros. by trans (created_at b). Qed.

Lemma elem_of_rows {V} (tbl : gmap string V) x :
  x ∈ rows tbl ↔ ∃ k, tbl !! k = Some x.
Proof.
  unfold rows. rewrite list_elem_of_fmap. split.
  - intros ([k y] & -> & Hin). exists k. by apply elem_of_map_to_list.
  - intros [k Hk]. exists (k, x). split; [done|]. by apply elem_of_map_to_list.
Qed.

Lemma length_rows {V} (tbl : gmap string V) : length (rows tbl) = size tbl.
Proof. unfold rows. by rewrite length_fmap, length_map_to_list. Qed.

Lemma elem_of_opt_filter {V} (f : V → string) (o : option string) (q : list V) x :
  x ∈ match o with
      | Some ((String _ _) as v) => filter (λ e, f e = v) q
      | _ => q
      end
  ↔ x ∈ q ∧ passes o (f x).
Proof.
  unfold passes. destruct o as [[|a v]|]; rewrite ?list_elem_of_filter.
  - split; [intros Hx; split; [done|]; by intros ? [= <-]|tauto].
  - split.
    + intros [Hf Hx]. split; [done|]. by intros ? [= <-] _.
    + intros [Hx Hf]. split; [|done]. by apply Hf.
  - split; [intros Hx; by split|tauto].
Qed.

(** X17. The event list holds exactly the stored events that pass the
    status filter and the severity filter, ordered so that no event comes
    before one that was created later.  A filter that is the empty string
    filters nothing, like a filter that is left out, and without filters the
    list has as many entries as there are events. *)
Theorem list_events_spec status severity d :
  (∀ e, e ∈ list_events status severity d
        ↔ (∃ k, h_events d !! k = Some e)
          ∧ passes status (HEvent.status e)
          ∧ passes severity (HEvent.severity e))
  ∧ StronglySorted (latest_first HEvent.created_at) (list_events status severity d)
  ∧ list_events (Some "") severity d = list_events None severity d
  ∧ list_events status (Some "") d = list_events status None d
  ∧ length (list_events None None d) = size (h_events d).
Proof.
  split; [|split; [|split; [|split]]].
  - intros e. unfold list_events. rewrite merge_sort_Permutation.
    rewrite (elem_of_opt_filter HEvent.severity), (elem_of_opt_filter HEvent.status).
    rewrite elem_of_rows. tauto.
  - apply StronglySorted_merge_sort; apply _.
  - done.
  - by destruct status as [[|??]|].
  - unfold list_events. by rewrite merge_sort_Permutation, length_rows.
Qed.

(** X18. The stop list and the recovery list hold exactly the stored rows
    that pass the status filter, ordered so that no row comes before one
    that was created later; an empty filter filters nothing, and without a
    filter each list has as many entries as its table has rows. *)
Theorem list_stops_recoveries_spec status d :
  (∀ s, s ∈ list_stops status d
        ↔ (∃ k, h_stops d !! k = Some s) ∧ passes status (HStop.status s))
  ∧ StronglySorted (latest_first HStop.created_at) (list_stops status d)
  ∧ list_stops (Some "") d = list_stops None d
  ∧ length (list_stops None d) = size (h_stops d)
  ∧ (∀ r, r ∈ list_recoveries status d
          ↔ (∃ k, recoveries d !! k = Some r) ∧ passes status (Recovery.status r))
  ∧ StronglySorted (latest_first Recovery.created_at) (list_recoveries status d)
  ∧ list_recoveries (Some "") d = list_recoveries None d
  ∧ length (list_recoveries None d) = size (recoveries d).
Proof.
  split; [|split; [|split; [|split; [|split; [|split; [|split]]]]]]; try done;
    try (apply StronglySorted_merge_sort; apply _).
  - intros s. unfold list_stops.
    rewrite merge_sort_Permutation, (elem_of_opt_filter HStop.status), elem_of_rows. tauto.
  - unfold list_stops. by rewrite merge_sort_Permutation, length_rows.
  - intros r. unfold list_recoveries.
    rewrite merge_sort_Permutation, (elem_of_opt_filter Recovery.status), elem_of_rows.
    tauto.
  - unfold list_recoveries. by rewrite merge_sort_Permutation, length_rows.
Qed.

End Listings.

(** ** The log query, once more *)

Section LogQuery.

Variable clock : nat → datetime.
Variable uuid4 : nat → string.

Lemma elem_of_selected module target_id d x :
  x ∈ selected module target_id d
  ↔ x ∈ observe_logs d
    ∧ passes module (ObserveLog.module x)
    ∧ passes_target target_id (ObserveLog.target_id x).
Proof.
  unfold selected. cbv zeta.
  assert (Htarget : ∀ q : list ObserveLog.t,
            x ∈ match target_id with
                | Some ((String _ _) as t) =>
                    filter (λ e, ObserveLog.target_id e = Some t) q
                | _ => q
                end
            ↔ x ∈ q ∧ passes_target target_id (ObserveLog.target_id x)).
  { intros q. unfold passes_target.
    destruct target_id as [[|a v]|]; rewrite ?list_elem_of_filter.
    - split; [intros Hx; split; [done|]; by intros ? [= <-]|tauto].
    - split.
      + intros [Hf Hx]. split; [done|]. by intros ? [= <-] _.
      + intros [Hx Hf]. split; [|done]. by apply Hf.
    - split; [intros Hx; by split|tauto]. }
  rewrite Htarget, (elem_of_opt_filter ObserveLog.module). tauto.
Qed.

(** X19. For a limit between 0 and 1000 every entry that the log query
    returns is an entry of the log that passes the module filter and the
    target filter, and when the limit is at least the length of the log
    every such entry is returned.  A filter that is the empty string filters
    nothing, like a filter that is left out. *)
Theorem get_logs_filters module target_id n d :
  (0 <= n <= 1000)%Z →
  ∃ l,
    get_logs module target_id (Some n) d = Ok l
    ∧ (∀ x, x ∈ l →
            x ∈ observe_logs d
            ∧ passes module (ObserveLog.module x)
            ∧ passes_target target_id (ObserveLog.target_id x))
    ∧ ((Z.of_nat (length (observe_logs d)) <= n)%Z →
       ∀ x, x ∈ observe_logs d →
            passes module (ObserveLog.module x) →
            passes_target target_id (ObserveLog.target_id x) → x ∈ l)
    ∧ get_logs (Some "") target_id (Some n) d = get_logs None target_id (Some n) d
    ∧ get_logs module (Some "") (Some n) d = get_logs module None (Some n) d.
Proof.
  intros Hn. eexists. split; [by apply get_logs_in_range|].
  split; [|split; [|split]].
  - intros x Hx. apply subseteq_take in Hx. rewrite merge_sort_Permutation in Hx.
    by apply elem_of_selected.
  - intros Hlen x Hx Hm Ht. rewrite take_ge.
    + rewrite merge_sort_Permutation. by apply elem_of_selected.
    + rewrite merge_sort_Permutation.
      assert (length (selected module target_id d) ≤ length (observe_logs d))%nat; [|lia].
      unfold selected. cbv zeta.
      destruct module as [[|??]|], target_id as [[|??]|];
        repeat (etrans; [apply length_filter|]); done.
  - done.
  - unfold get_logs. by destruct module as [[|??]|].
Qed.

End LogQuery.

(** ** The log under a clock that never repeats *)

Section TimeOrder.

Variable clock : nat → datetime.
Variable uuid4 : nat → string.
Hypothesis clock_incr : clock_increasing clock.

Lemma create_event_time ev w : log_time_step clock w (create_event clock uuid4 ev w).2.
Proof. timed create_event. Qed.

Lemma update_event_status_time h_id upd w :
  log_time_step clock w (update_event_status clock uuid4 h_id upd w).2.
Proof. timed update_event_status. Qed.

Lemma activate_stop_time stop w : log_time_step clock w (activate_stop clock uuid4 stop w).2.
Proof. timed activate_stop. Qed.

Lemma release_stop_time stop_id rel w :
  log_time_step clock w (release_stop clock uuid4 stop_id rel w).2.
Proof. timed release_stop. Qed.

Lemma initiate_recovery_time rc w :
  log_time_step clock w (initiate_recovery clock uuid4 rc w).2.
Proof. timed initiate_recovery. Qed.

Lemma update_recovery_time recovery_id upd w :
  log_time_step clock w (update_recovery clock uuid4 recovery_id upd w).2.
Proof. timed update_recovery. Qed.

Lemma log_time_step_order w w' :
  log_time_step clock w w' → log_in_time_order clock w → log_in_time_order clock w'.
Proof.
  intros [Hticks Hlog] [Hsorted Hread]. unfold log_in_time_order.
  assert (Hweaken : Forall (λ x, ∃ t, (t < ticks w')%nat ∧ ObserveLog.timestamp x = clock t)
                      (observe_logs (db w))).
  { eapply Forall_impl; [exact Hread|]. intros x (t & Ht & Hx). exists t. split; [lia|done]. }
  destruct Hlog as [->|(x & t & -> & Hx & Ht)]; [by split|]. split.
  - apply StronglySorted_app_2; [|done|repeat constructor].
    intros x1 x2 Hx1 Hx2. apply list_elem_of_singleton in Hx2 as ->.
    rewrite Forall_forall in Hread. destruct (Hread _ Hx1) as (t1 & Ht1 & Hx1').
    unfold logged_before. rewrite Hx, Hx1'. apply clock_incr. lia.
  - apply Forall_app. split; [done|]. apply Forall_singleton. exists t. split; [lia|done].
Qed.

Lemma reachable_time_order w : reachable clock uuid4 w → log_in_time_order clock w.
Proof.
  induction 1; [split; constructor|..]; (eapply log_time_step_order; [|eassumption]);
    auto using create_event_time, update_event_status_time, activate_stop_time,
      release_stop_time, initiate_recovery_time, update_recovery_time.
Qed.

Lemma dt_lt_le a b : dt_lt a b → dt_le a b.
Proof. unfold dt_lt, dt_le. lia. Qed.

Lemma dt_lt_irrefl a : ¬ dt_lt a a.
Proof. unfold dt_lt. lia. Qed.

Lemma StronglySorted_filter {A} (R : relation A) (P : A → Prop) `{∀ x, Decision (P x)} l :
  StronglySorted R l → StronglySorted R (filter P l).
Proof.
  induction 1 as [|x l Hl IH Hx]; [constructor|].
  rewrite filter_cons. case_decide; [|done]. constructor; [done|].
  rewrite Forall_forall in Hx |- *. intros y [_ Hy]%list_elem_of_filter. by apply Hx.
Qed.

(** A log in strict time order, read backwards, is newest first. *)
Lemma newest_first_reverse l :
  StronglySorted logged_before l → StronglySorted newest_first (reverse l).
Proof.
  induction 1 as [|x l Hl IH Hx]; [constructor|].
  rewrite reverse_cons. apply StronglySorted_app_2; [|done|repeat constructor].
  intros x1 x2 Hx1 Hx2. apply list_elem_of_singleton in Hx2 as ->.
  rewrite elem_of_reverse in Hx1. rewrite Forall_forall in Hx.
  unfold newest_first. apply dt_lt_le, Hx, Hx1.
Qed.

(** In a log in strict time order no two entries share a timestamp. *)
Lemma logged_before_distinct l x1 x2 :
  StronglySorted logged_before l → x1 ∈ l → x2 ∈ l →
  ObserveLog.timestamp x1 = ObserveLog.timestamp x2 → x1 = x2.
Proof.
  induction 1 as [|x l Hl IH Hx]; [by intros ?%elem_of_nil|].
  rewrite Forall_forall in Hx. unfold logged_before in Hx.
  intros [->|H1]%elem_of_cons [->|H2]%elem_of_cons Heq; auto.
  - specialize (Hx _ H2). rewrite Heq in Hx. by apply dt_lt_irrefl in Hx.
  - specialize (Hx _ H1). rewrite Heq in Hx. by apply dt_lt_irrefl in Hx.
Qed.

Lemma dt_le_antisym a b : dt_le a b → dt_le b a → a = b.
Proof. destruct a, b. unfold dt_le. simpl. intros ??. f_equal; lia. Qed.

Lemma merge_sort_reverse l :
  StronglySorted logged_before l → merge_sort newest_first l = reverse l.
Proof.
  intros Hl. apply (StronglySorted_unique_strong newest_first).
  - intros x1 x2 Hx1 Hx2 H12 H21.
    rewrite merge_sort_Permutation in Hx1. rewrite elem_of_reverse in Hx2.
    apply (logged_before_distinct l); [done..|]. by apply dt_le_antisym.
  - apply StronglySorted_merge_sort; apply _.
  - by apply newest_first_reverse.
  - by rewrite merge_sort_Permutation, reverse_Permutation.
Qed.

(** X20. When every reading of the clock is later than the readings before
    it, newest first is the reverse of the order of insertion: in a
    reachable world the log query with a limit between 0 and 1000 returns
    the first [n] of the selected entries read backwards, and without
    filters the last [n] entries of the log, the latest first. *)
Theorem get_logs_reverse_insertion w module target_id n :
  reachable clock uuid4 w → (0 <= n <= 1000)%Z →
  get_logs module target_id (Some n) (db w)
    = Ok (take (Z.to_nat n) (reverse (selected module target_id (db w))))
  ∧ get_logs None None (Some n) (db w)
    = Ok (take (Z.to_nat n) (reverse (observe_logs (db w)))).
Proof.
  intros Hreach Hn. destruct (reachable_time_order w Hreach) as [Hsorted _].
  rewrite !get_logs_in_range by done. split; f_equal; f_equal.
  - apply merge_sort_reverse. unfold selected. cbv zeta.
    destruct module as [[|??]|], target_id as [[|??]|];
      repeat apply StronglySorted_filter; done.
  - by apply merge_sort_reverse.
Qed.

End TimeOrder.

(** ** The statistics *)

Section Statistics.

Variable clock : nat → datetime.
Variable uuid4 : nat → string.

Lemma rows_insert_fresh {V} (tbl : gmap string V) k v :
  tbl !! k = None → rows (<[k := v]> tbl) ≡ₚ v :: rows tbl.
Proof. intros Hk. unfold rows. by rewrite map_to_list_insert. Qed.

Lemma rows_delete {V} (tbl : gmap string V) k v :
  tbl !! k = Some v → rows tbl ≡ₚ v :: rows (delete k tbl).
Proof. intros Hk. unfold rows. by rewrite <- (map_to_list_delete tbl k v). Qed.

Lemma count_insert_fresh {V} (P : V → Prop) `{∀ v, Decision (P v)} tbl k v :
  tbl !! k = None →
  count P (<[k := v]> tbl) = (count P tbl + (if decide (P v) then 1 else 0))%nat.
Proof.
  intros Hk. unfold count. rewrite (rows_insert_fresh _ _ _ Hk), filter_cons.
  case_decide; simpl; lia.
Qed.

Lemma count_insert_existing {V} (P : V → Prop) `{∀ v, Decision (P v)} tbl k v0 v :
  tbl !! k = Some v0 →
  (count P (<[k := v]> tbl) + (if decide (P v0) then 1 else 0)
   = count P tbl + (if decide (P v) then 1 else 0))%nat.
Proof.
  intros Hk. unfold count. rewrite <- (insert_delete_eq tbl).
  rewrite (rows_insert_fresh (delete k tbl)) by apply lookup_delete_eq.
  rewrite (rows_delete tbl k v0 Hk), !filter_cons.
  repeat case_decide; simpl; lia.
Qed.

Lemma count_le_size {V} (P : V → Prop) `{∀ v, Decision (P v)} tbl :
  (count P tbl <= size tbl)%nat.
Proof. unfold count. rewrite <- length_rows. apply length_filter. Qed.

Lemma four_counts {V} (f : V → string) (a b c d : string) (l : list V) :
  NoDup [a; b; c; d] →
  (length (filter (λ x, f x = a) l) + length (filter (λ x, f x = b) l)
   + length (filter (λ x, f x = c) l) + length (filter (λ x, f x = d) l)
   <= length l)%nat
  ∧ (Forall (λ x, f x ∈ [a; b; c; d]) l →
     (length (filter (λ x, f x = a) l) + length (filter (λ x, f x = b) l)
      + length (filter (λ x, f x = c) l) + length (filter (λ x, f x = d) l)
      = length l)%nat).
Proof.
  intros Hnd. apply NoDup_cons in Hnd as [Ha Hnd]. apply NoDup_cons in Hnd as [Hb Hnd].
  apply NoDup_cons in Hnd as [Hc _].
  repeat rewrite not_elem_of_cons in Ha. repeat rewrite not_elem_of_cons in Hb.
  repeat rewrite not_elem_of_cons in Hc.
  destruct Ha as (Hab & Hac & Had & _), Hb as (Hbc & Hbd & _), Hc as (Hcd & _).
  induction l as [|x l [IH1 IH2]]; [done|]. rewrite !filter_cons. split.
  - repeat case_decide; simpl; try lia; exfalso; congruence.
  - intros [Hx Hl]%Forall_cons. specialize (IH2 Hl).
    rewrite !elem_of_cons in Hx.
    repeat case_decide; simpl; try lia; exfalso;
      destruct Hx as [?|[?|[?|[?|?%elem_of_nil]]]]; congruence.
Qed.

(** X21. The statistics count every event once at most: [total_events] is
    the number of events, the four severity counts add up to no more than
    it, and to exactly it when every event has one of the four severities;
    the four status counts add up to no more than it, the statuses
    "investigating", "disputed" and "false_positive" not being counted; and
    the active stops and active recoveries are no more than the stops and
    the recoveries. *)
Theorem get_stats_bounds d :
  Stats.total_events (get_stats d) = size (h_events d)
  ∧ (Stats.critical (Stats.events_by_severity (get_stats d))
     + Stats.high (Stats.events_by_severity (get_stats d))
     + Stats.medium (Stats.events_by_severity (get_stats d))
     + Stats.low (Stats.events_by_severity (get_stats d))
     <= Stats.total_events (get_stats d))%nat
  ∧ ((∀ k e, h_events d !! k = Some e →
             HEvent.severity e ∈ ["critical"; "high"; "medium"; "low"]) →
     (Stats.critical (Stats.events_by_severity (get_stats d))
      + Stats.high (Stats.events_by_severity (get_stats d))
      + Stats.medium (Stats.events_by_severity (get_stats d))
      + Stats.low (Stats.events_by_severity (get_stats d))
      = Stats.total_events (get_stats d))%nat)
  ∧ (Stats.registered (Stats.events_by_status (get_stats d))
     + Stats.h_stop_active (Stats.events_by_status (get_stats d))
     + Stats.recovering (Stats.events_by_status (get_stats d))
     + Stats.resolved (Stats.events_by_status (get_stats d))
     <= Stats.total_events (get_stats d))%nat
  ∧ (Stats.active_stops (get_stats d) <= size (h_stops d))%nat
  ∧ (Stats.active_recoveries (get_stats d) <= size (recoveries d))%nat.
Proof.
  simpl. unfold count. rewrite <- !length_rows.
  split; [done|]. split; [|split; [|split; [|split]]].
  - apply (four_counts HEvent.severity). compute_done.
  - intros Hsev. apply (four_counts HEvent.severity); [compute_done|].
    apply Forall_forall. intros e [k Hk]%elem_of_rows. eauto.
  - apply (four_counts HEvent.status). compute_done.
  - apply length_filter.
  - apply length_filter.
Qed.

(** X22. In a reachable world the creation of an event whose
    [affected_count] is absent or fits the 64 bits of the INTEGER column
    succeeds, raises [total_events] and the count of registered events by
    one each and the count of its severity by one, and leaves the other
    status counts, the active stops and the active recoveries as they
    were. *)
Theorem get_stats_after_create w ev :
  reachable clock uuid4 w →
  fits_integer (HEventCreate.affected_count ev) = true →
  ∃ e w',
    create_event clock uuid4 ev w = (Ok e, w')
    ∧ Stats.total_events (get_stats (db w')) = S (Stats.total_events (get_stats (db w)))
    ∧ Stats.registered (Stats.events_by_status (get_stats (db w')))
      = S (Stats.registered (Stats.events_by_status (get_stats (db w))))
    ∧ Stats.h_stop_active (Stats.events_by_status (get_stats (db w')))
      = Stats.h_stop_active (Stats.events_by_status (get_stats (db w)))
    ∧ Stats.recovering (Stats.events_by_status (get_stats (db w')))
      = Stats.recovering (Stats.events_by_status (get_stats (db w)))
    ∧ Stats.resolved (Stats.events_by_status (get_stats (db w')))
      = Stats.resolved (Stats.events_by_status (get_stats (db w)))
    ∧ (HEventCreate.severity ev = "critical" →
       Stats.critical (Stats.events_by_severity (get_stats (db w')))
       = S (Stats.critical (Stats.events_by_severity (get_stats (db w)))))
    ∧ (HEventCreate.severity ev ≠ "critical" →
       Stats.critical (Stats.events_by_severity (get_stats (db w')))
       = Stats.critical (Stats.events_by_severity (get_stats (db w))))
    ∧ Stats.active_stops (get_stats (db w')) = Stats.active_stops (get_stats (db w))
    ∧ Stats.active_recoveries (get_stats (db w'))
      = Stats.active_recoveries (get_stats (db w)).
Proof.
  intros Hreach Hfits. pose proof (reachable_wf _ _ _ Hreach) as Hwf.
  destruct Hwf as (Hwf_e & _). unfold create_event. run.
  rewrite Hfits. simpl. rewrite (ids_wf_fresh _ _ _ _ Hwf_e). simpl.
  eexists _, _. split; [reflexivity|]. simpl.
  pose proof (ids_wf_fresh _ _ _ (dt_year (clock (ticks w))) Hwf_e) as Hfresh.
  rewrite !(count_insert_fresh _ _ _ _ Hfresh), (map_size_insert_None _ _ _ Hfresh).
  simpl. repeat split; try lia.
  - intros ->. simpl. lia.
  - intros Hne. case_decide; [done|lia].
Qed.

(** X23. In a reachable world every activation raises [active_stops] by
    one and every release lowers it by one. *)
Theorem active_stops_counts_open_stops w :
  reachable clock uuid4 w →
  (∀ stop s w', activate_stop clock uuid4 stop w = (Ok s, w') →
     Stats.active_stops (get_stats (db w')) = S (Stats.active_stops (get_stats (db w))))
  ∧ (∀ stop_id rel s w', release_stop clock uuid4 stop_id rel w = (Ok s, w') →
       S (Stats.active_stops (get_stats (db w'))) = Stats.active_stops (get_stats (db w))).
Proof.
  intros Hreach. split.
  - intros stop s w'. unfold activate_stop. run.
    destruct (h_events (db w) !! HStopCreate.h_id stop); simpl; [|done].
    destruct (h_stops (db w) !! fmt_id _ _ _) eqn:Hfresh; simpl; [done|].
    intros [= <- <-]. simpl. rewrite (count_insert_fresh _ _ _ _ Hfresh). simpl. lia.
  - intros stop_id rel s w' Hrun.
    destruct (h_stops (db w) !! stop_id) as [s0|] eqn:Hs0.
    + destruct (decide (HStop.status s0 = "released")) as [Hrel|Hrel].
      { by rewrite (release_stop_released _ _ _ _ _ _ Hs0 Hrel) in Hrun. }
      destruct (release_stop_run clock uuid4 w stop_id rel s0 Hs0 Hrel)
        as (w1 & Hrun1 & Hstops & _).
      rewrite Hrun1 in Hrun. injection Hrun as <- <-. simpl. rewrite Hstops.
      pose proof (count_insert_existing (λ s, HStop.status s = "active") _ _ _
                    (HStop.release (clock (ticks w)) (HStopRelease.reason rel) s0) Hs0)
        as Hcount.
      pose proof (reachable_stops_shaped clock uuid4 w Hreach _ _ Hs0) as Hshape.
      destruct Hshape as [(Hact & _)|(Hst & _)]; [|done].
      simpl in Hcount. rewrite Hact in Hcount. simpl in Hcount. lia.
    + revert Hrun. unfold release_stop. run. by rewrite Hs0.
Qed.

End Statistics.

(** ** The demo client against any server *)

Section Demo.

Variable clock : nat → datetime.
Variable uuid4 : nat → string.

(** X24. Against a server in any reachable state the demo client runs
    through without an error.  It sees its event with status
    "h_stop_active" after the stop, and ends with the event "resolved", the
    stop "released" and the recovery "in_progress" with the measures it was
    initiated with; the release of the stop, coming after the recovery, does
    not take the event back to "investigating".  The run adds six entries to
    the log, in the order of the six writing requests, and one event to the
    statistics. *)
Theorem demo_main_runs w deadline :
  reachable clock uuid4 w →
  ∃ rep w' news,
    demo_main clock uuid4 deadline w = (Ok rep, w')
    ∧ HEvent.status (seen_after_stop rep) = "h_stop_active"
    ∧ HEvent.status (final_event rep) = "resolved"
    ∧ HStop.status (final_stop rep) = "released"
    ∧ Recovery.status (final_recovery rep) = "in_progress"
    ∧ length <$> Recovery.measures (final_recovery rep) = Some 3%nat
    ∧ h_events (db w') !! HEvent.h_id (final_event rep) = Some (final_event rep)
    ∧ h_stops (db w') !! HStop.stop_id (final_stop rep) = Some (final_stop rep)
    ∧ HStop.h_id (final_stop rep) = HEvent.h_id (final_event rep)
    ∧ Recovery.h_id (final_recovery rep) = HEvent.h_id (final_event rep)
    ∧ observe_logs (db w') = observe_logs (db w) ++ news
    ∧ (λ x, (ObserveLog.module x, ObserveLog.action x)) <$> news
      = [("h_event", "created"); ("h_stop", "activated"); ("r0", "initiated");
         ("r0", "updated"); ("h_stop", "released"); ("h_event", "status_updated")]
    ∧ Stats.total_events (final_stats rep) = S (size (h_events (db w)))
    ∧ (length (audit_trail rep) <= 20)%nat.
Proof.
  intros Hreach. destruct (reachable_wf _ _ _ Hreach) as (Hwf_e & Hwf_s & Hwf_r).
  pose proof (ids_wf_fresh _ _ _ (dt_year (clock (ticks w))) Hwf_e) as Hfresh.
  unfold demo_main, create_event, activate_stop, get_event, initiate_recovery,
    update_recovery, release_stop, update_event_status, serve.
  run.
  rewrite Hfresh. simpl.
  rewrite lookup_insert_eq. simpl.
  rewrite (ids_wf_fresh _ _ _ _ Hwf_s). simpl.
  rewrite lookup_insert_eq. simpl.
  rewrite lookup_insert_eq. simpl.
  rewrite (ids_wf_fresh _ _ _ _ Hwf_r). simpl.
  repeat (rewrite lookup_insert_eq; simpl).
  eexists _, _, _. split; [reflexivity|]. simpl.
  rewrite !lookup_insert_eq, <- !app_assoc. repeat (split; [reflexivity|]). split.
  - rewrite !insert_insert_eq. by apply map_size_insert_None.
  - unfold sql_limit. simpl. rewrite length_take. lia.
Qed.

End Demo.

(** ** The further properties on the concrete run *)

Lemma w_released_reachable : reachable demo_clock demo_uuid4 w_released.
Proof. apply evolves_release_stop, w_stopped_reachable. Qed.

Lemma w_recovering_reachable : reachable demo_clock demo_uuid4 w_recovering.
Proof. apply evolves_initiate_recovery, w_stopped_reachable. Qed.

Lemma w_two_stops_reachable : reachable demo_clock demo_uuid4 w_two_stops.
Proof. apply evolves_activate_stop, w_stopped_reachable. Qed.

Lemma w_event_evolves_released : evolves demo_clock demo_uuid4 w_event w_released.
Proof. apply evolves_release_stop, evolves_activate_stop, evolves_refl. Qed.

Lemma demo_clock_increasing : clock_increasing demo_clock.
Proof. intros i j Hij. right. simpl. split; [done|lia]. Qed.

Lemma events_are_kept_witness :
  ∃ e s t,
    h_events (db w_event) !! "HIR-2026-00001" = Some e
    ∧ h_events (db w_released) !! "HIR-2026-00001" = Some (HEvent.touch s t e).
Proof.
  assert (∃ e, h_events (db w_event) !! "HIR-2026-00001" = Some e) as [e He]
    by (eexists; vm_compute; reflexivity).
  destruct (events_are_kept demo_clock demo_uuid4 w_event w_released "HIR-2026-00001" e
              w_event_evolves_released He) as (s & t & He').
  by exists e, s, t.
Defined.

Lemma stops_change_once_witness :
  ∃ s, h_stops (db w_stopped) !! "STOP-2026-00001" = Some s
       ∧ (h_stops (db w_released) !! "STOP-2026-00001" = Some s
          ∨ HStop.status s ≠ "released"
            ∧ ∃ t why, h_stops (db w_released) !! "STOP-2026-00001"
                       = Some (HStop.release t why s)).
Proof.
  assert (∃ s, h_stops (db w_stopped) !! "STOP-2026-00001" = Some s) as [s Hs]
    by (eexists; vm_compute; reflexivity).
  exists s. split; [exact Hs|].
  apply (stops_change_once demo_clock demo_uuid4 w_stopped w_released); [|exact Hs].
  apply evolves_release_stop, evolves_refl.
Defined.

Lemma recoveries_are_kept_witness :
  ∃ r r',
    recoveries (db w_recovering) !! "R0-2026-00001" = Some r
    ∧ recoveries (db w_updated) !! "R0-2026-00001" = Some r'
    ∧ Recovery.h_id r' = Recovery.h_id r
    ∧ Recovery.created_at r' = Recovery.created_at r.
Proof.
  assert (∃ r, recoveries (db w_recovering) !! "R0-2026-00001" = Some r) as [r Hr]
    by (eexists; vm_compute; reflexivity).
  destruct (recoveries_are_kept demo_clock demo_uuid4 w_recovering w_updated
              "R0-2026-00001" r) as (r' & Hr' & _ & Hh & _ & Hc).
  { apply evolves_update_recovery, evolves_refl. }
  { exact Hr. }
  exists r, r'. split; [exact Hr|]. split; [exact Hr'|]. split; [exact Hh|exact Hc].
Defined.

Lemma stops_are_active_or_released_witness :
  ∃ s, h_stops (db w_released) !! "STOP-2026-00001" = Some s ∧ stop_shape s.
Proof.
  assert (∃ s, h_stops (db w_released) !! "STOP-2026-00001" = Some s) as [s Hs]
    by (eexists; vm_compute; reflexivity).
  exists s. split; [exact Hs|].
  exact (stops_are_active_or_released demo_clock demo_uuid4 w_released _ s
           w_released_reachable Hs).
Defined.

Lemma references_always_resolve_witness : references_resolve (db w_recovering).
Proof. exact (references_always_resolve demo_clock demo_uuid4 _ w_recovering_reachable). Defined.

Lemma log_ids_are_consecutive_witness :
  log_ids_in_sequence (db w_released)
  ∧ NoDup (ObserveLog.id <$> observe_logs (db w_released)).
Proof. exact (log_ids_are_consecutive demo_clock demo_uuid4 _ w_released_reachable). Defined.

Lemma every_row_is_traceable_witness : creations_logged (db w_recovering).
Proof. exact (every_row_is_traceable demo_clock demo_uuid4 _ w_recovering_reachable). Defined.

Lemma get_event_after_create_witness :
  ∃ e w',
    create_event demo_clock demo_uuid4 demo_event w_event = (Ok e, w')
    ∧ get_event (HEvent.h_id e) w_event = (Raise (event_not_found (HEvent.h_id e)), w_event)
    ∧ get_event (HEvent.h_id e) w' = (Ok e, w').
Proof.
  exact (get_event_after_create demo_clock demo_uuid4 w_event demo_event w_event_reachable
           eq_refl).
Defined.

Lemma activate_stop_creates_witness :
  ∃ s w',
    activate_stop demo_clock demo_uuid4 demo_stop w_stopped = (Ok s, w')
    ∧ HStop.stop_id s = "STOP-2026-00002"
    ∧ HStop.status s = "active"
    ∧ HStop.released_at s = None.
Proof.
  edestruct (activate_stop_creates demo_clock demo_uuid4 w_stopped demo_stop)
    as (s & w' & Hrun & Hid & Hst & Hat & _).
  { exact w_stopped_reachable. }
  { vm_compute; reflexivity. }
  exists s, w'. split; [exact Hrun|]. split; [|by split].
  rewrite Hid. vm_compute; reflexivity.
Defined.

Lemma initiate_recovery_creates_witness :
  (∃ r w' e',
     initiate_recovery demo_clock demo_uuid4 demo_recovery w_stopped = (Ok r, w')
     ∧ Recovery.status r = "initiated"
     ∧ h_events (db w') !! "HIR-2026-00001" = Some e'
     ∧ HEvent.status e' = "recovering")
  ∧ initiate_recovery demo_clock demo_uuid4 demo_recovery init_world
    = (Raise (event_not_found "HIR-2026-00001"), init_world)
  ∧ ∃ w',
      initiate_recovery demo_clock demo_uuid4 huge_recovery w_stopped
        = (Raise OverflowError, w')
      ∧ db w' = db w_stopped.
Proof.
  split; [|split].
  - edestruct (proj1 (initiate_recovery_creates demo_clock demo_uuid4 w_stopped
                        demo_recovery w_stopped_reachable))
      as (r & w' & e' & t & Hrun & _ & Hst & _ & _ & _ & _ & _ & _ & He' & Heq & _).
    { vm_compute; reflexivity. }
    { reflexivity. }
    exists r, w', e'. split; [exact Hrun|]. split; [exact Hst|]. split; [exact He'|].
    by rewrite Heq.
  - apply (proj1 (proj2 (initiate_recovery_creates demo_clock demo_uuid4 init_world
                           demo_recovery (evolves_refl _ _ _)))).
    vm_compute; reflexivity.
  - eapply (proj2 (proj2 (initiate_recovery_creates demo_clock demo_uuid4 w_stopped
                            huge_recovery w_stopped_reachable))).
    + vm_compute; reflexivity.
    + reflexivity.
Defined.

Lemma recovery_then_release_witness :
  ∃ r w1 s' w2 e',
    initiate_recovery demo_clock demo_uuid4 demo_recovery w_stopped = (Ok r, w1)
    ∧ release_stop demo_clock demo_uuid4 "STOP-2026-00001" demo_release w1 = (Ok s', w2)
    ∧ HStop.status s' = "released"
    ∧ h_events (db w2) !! "HIR-2026-00001" = Some e'
    ∧ HEvent.status e' = "recovering".
Proof.
  assert (∃ s, h_stops (db w_stopped) !! "STOP-2026-00001" = Some s
               ∧ HStop.status s = "active"
               ∧ HStop.h_id s = "HIR-2026-00001") as (s & Hs & Hact & Hid)
    by (eexists; vm_compute; repeat split; reflexivity).
  destruct (recovery_then_release demo_clock demo_uuid4 w_stopped "STOP-2026-00001"
              s demo_recovery demo_release w_stopped_reachable Hs)
    as (r & w1 & s' & w2 & e' & Hrun1 & Hrun2 & _ & Hst & He' & Hst').
  { rewrite Hact. discriminate. }
  { by rewrite Hid. }
  { reflexivity. }
  rewrite Hid in He'. by exists r, w1, s', w2, e'.
Defined.

Lemma release_one_of_two_stops_witness :
  ∃ s1' w' s2 e',
    release_stop demo_clock demo_uuid4 "STOP-2026-00001" demo_release w_two_stops
      = (Ok s1', w')
    ∧ h_stops (db w') !! "STOP-2026-00002" = Some s2
    ∧ HStop.status s2 = "active"
    ∧ h_events (db w') !! "HIR-2026-00001" = Some e'
    ∧ HEvent.status e' = "investigating".
Proof.
  assert (∃ s2, h_stops (db w_two_stops) !! "STOP-2026-00002" = Some s2
                ∧ HStop.status s2 = "active"
                ∧ HStop.h_id s2 = "HIR-2026-00001") as (s2 & Hs2 & Hst2 & Hid2)
    by (eexists; vm_compute; repeat split; reflexivity).
  assert (∃ s1, h_stops (db w_two_stops) !! "STOP-2026-00001" = Some s1
                ∧ HStop.status s1 = "active"
                ∧ HStop.h_id s1 = "HIR-2026-00001") as (s1 & Hs1 & Hst1 & Hid1)
    by (eexists; vm_compute; repeat split; reflexivity).
  assert (∃ e, h_events (db w_two_stops) !! "HIR-2026-00001" = Some e
               ∧ HEvent.status e = "h_stop_active") as (e & He & Hact)
    by (eexists; vm_compute; repeat split; reflexivity).
  destruct (release_one_of_two_stops demo_clock demo_uuid4 w_two_stops
              "STOP-2026-00001" "STOP-2026-00002" s1 s2 e demo_release)
    as (s1' & w' & e' & Hrun & Hs2' & He' & Hst').
  { discriminate. }
  { exact Hs1. }
  { exact Hs2. }
  { rewrite Hst1. discriminate. }
  { by rewrite Hid1, Hid2. }
  { by rewrite Hid1. }
  { exact Hact. }
  exists s1', w', s2, e'. rewrite Hid2 in He'. by repeat split.
Defined.

Lemma update_event_status_frame_witness :
  ∃ e' w',
    update_event_status demo_clock demo_uuid4 "HIR-2026-00001" demo_resolved w_stopped
      = (Ok e', w')
    ∧ HEvent.status e' = "resolved"
    ∧ h_stops (db w') = h_stops (db w_stopped)
    ∧ recoveries (db w') = recoveries (db w_stopped).
Proof.
  assert (∃ e' w', update_event_status demo_clock demo_uuid4 "HIR-2026-00001"
                     demo_resolved w_stopped = (Ok e', w')
                   ∧ HEvent.status e' = "resolved") as (e' & w' & Hrun & Hst)
    by (eexists _, _; vm_compute; split; reflexivity).
  destruct (update_event_status_frame demo_clock demo_uuid4 _ _ _ _ _ Hrun)
    as (_ & _ & Hstops & Hrecs).
  exists e', w'. split; [exact Hrun|]. split; [exact Hst|]. split; [exact Hstops|exact Hrecs].
Defined.

Lemma update_recovery_frame_witness :
  ∃ r' w',
    update_recovery demo_clock demo_uuid4 "R0-2026-00001" demo_progress w_recovering
      = (Ok r', w')
    ∧ h_events (db w') = h_events (db w_recovering)
    ∧ h_stops (db w') = h_stops (db w_recovering).
Proof.
  assert (∃ r' w', update_recovery demo_clock demo_uuid4 "R0-2026-00001"
                     demo_progress w_recovering = (Ok r', w')) as (r' & w' & Hrun)
    by (eexists _, _; vm_compute; reflexivity).
  destruct (update_recovery_frame demo_clock demo_uuid4 _ _ _ _ _ Hrun)
    as (Hevents & Hstops & _).
  exists r', w'. split; [exact Hrun|]. split; [exact Hevents|exact Hstops].
Defined.

Lemma failed_requests_write_nothing_witness :
  ∃ err w',
    release_stop demo_clock demo_uuid4 "STOP-2026-00001" demo_release w_released
      = (Raise err, w')
    ∧ db w' = db w_released.
Proof.
  assert (∃ err w', release_stop demo_clock demo_uuid4 "STOP-2026-00001" demo_release
                      w_released = (Raise err, w')) as (err & w' & Hrun)
    by (eexists _, _; vm_compute; reflexivity).
  destruct (failed_requests_write_nothing demo_clock demo_uuid4)
    as (_ & _ & _ & Hrelease & _).
  exists err, w'. split; [exact Hrun|]. exact (Hrelease _ _ _ _ _ Hrun).
Defined.

Lemma reachable_errors_witness :
  (∃ e w', create_event demo_clock demo_uuid4 demo_event w_released = (Ok e, w'))
  ∧ (∃ err w',
       create_event demo_clock demo_uuid4 huge_event w_released = (Raise err, w')
       ∧ err = OverflowError)
  ∧ (∃ err w',
       initiate_recovery demo_clock demo_uuid4 huge_recovery w_released = (Raise err, w')
       ∧ err = OverflowError)
  ∧ ∃ err w',
      activate_stop demo_clock demo_uuid4 demo_stop init_world = (Raise err, w')
      ∧ err = event_not_found "HIR-2026-00001".
Proof.
  split; [|split; [|split]].
  - exact (proj1 (reachable_errors demo_clock demo_uuid4 w_released w_released_reachable)
             demo_event eq_refl).
  - assert (∃ err w', create_event demo_clock demo_uuid4 huge_event w_released
                      = (Raise err, w')) as (err & w' & Hrun)
      by (eexists _, _; vm_compute; reflexivity).
    destruct (reachable_errors demo_clock demo_uuid4 w_released w_released_reachable)
      as (_ & Hcreate & _).
    exists err, w'. split; [exact Hrun|]. exact (proj1 (Hcreate _ _ _ Hrun)).
  - assert (∃ err w', initiate_recovery demo_clock demo_uuid4 huge_recovery w_released
                      = (Raise err, w')) as (err & w' & Hrun)
      by (eexists _, _; vm_compute; reflexivity).
    destruct (reachable_errors demo_clock demo_uuid4 w_released w_released_reachable)
      as (_ & _ & _ & _ & _ & Hinitiate & _).
    exists err, w'. split; [exact Hrun|].
    destruct (Hinitiate _ _ _ Hrun) as [[_ Hnone]|[Herr _]]; [|exact Herr].
    vm_compute in Hnone. discriminate Hnone.
  - assert (∃ err w', activate_stop demo_clock demo_uuid4 demo_stop init_world
                      = (Raise err, w')) as (err & w' & Hrun)
      by (eexists _, _; vm_compute; reflexivity).
    destruct (reachable_errors demo_clock demo_uuid4 init_world (evolves_refl _ _ _))
      as (_ & _ & _ & Hactivate & _).
    exists err, w'. split; [exact Hrun|]. exact (Hactivate _ _ _ Hrun).
Defined.

Lemma get_logs_filters_witness :
  ∃ l, get_logs (Some "h_stop") (Some "") (Some 5%Z) (db w_released) = Ok l
       ∧ ∀ x, x ∈ l → ObserveLog.module x = "h_stop".
Proof.
  destruct (get_logs_filters (Some "h_stop") (Some "") 5 (db w_released))
    as (l & Hrun & Hsound & _); [lia|].
  exists l. split; [exact Hrun|]. intros x Hx.
  destruct (Hsound x Hx) as (_ & Hm & _). by apply Hm.
Defined.

Lemma get_logs_reverse_insertion_witness :
  get_logs None None (Some 2%Z) (db w_released)
  = Ok (take 2 (reverse (observe_logs (db w_released)))).
Proof.
  apply (get_logs_reverse_insertion demo_clock demo_uuid4 demo_clock_increasing
           w_released None None 2 w_released_reachable). lia.
Defined.

Lemma get_stats_bounds_witness :
  (Stats.critical (Stats.events_by_severity (get_stats (db w_released)))
   + Stats.high (Stats.events_by_severity (get_stats (db w_released)))
   + Stats.medium (Stats.events_by_severity (get_stats (db w_released)))
   + Stats.low (Stats.events_by_severity (get_stats (db w_released)))
   = Stats.total_events (get_stats (db w_released)))%nat.
Proof.
  apply (get_stats_bounds (db w_released)).
  change (map_Forall (λ _ e, HEvent.severity e ∈ ["critical"; "high"; "medium"; "low"])
            (h_events (db w_released))).
  apply (bool_decide_unpack _). vm_compute. exact I.
Defined.

Lemma get_stats_after_create_witness :
  ∃ e w',
    create_event demo_clock demo_uuid4 demo_event w_released = (Ok e, w')
    ∧ Stats.total_events (get_stats (db w')) = 2%nat
    ∧ Stats.registered (Stats.events_by_status (get_stats (db w'))) = 1%nat
    ∧ Stats.critical (Stats.events_by_severity (get_stats (db w'))) = 2%nat.
Proof.
  destruct (get_stats_after_create demo_clock demo_uuid4 w_released demo_event
              w_released_reachable eq_refl)
    as (e & w' & Hrun & Htotal & Hreg & _ & _ & _ & Hcrit & _).
  exists e, w'. split; [exact Hrun|]. rewrite Htotal, Hreg, (Hcrit eq_refl).
  vm_compute. by repeat split.
Defined.

Lemma active_stops_counts_open_stops_witness :
  (∃ s w',
     activate_stop demo_clock demo_uuid4 demo_stop w_stopped = (Ok s, w')
     ∧ Stats.active_stops (get_stats (db w')) = 2%nat)
  ∧ ∃ s w',
      release_stop demo_clock demo_uuid4 "STOP-2026-00001" demo_release w_stopped
        = (Ok s, w')
      ∧ Stats.active_stops (get_stats (db w')) = 0%nat.
Proof.
  destruct (active_stops_counts_open_stops demo_clock demo_uuid4 w_stopped
              w_stopped_reachable) as [Hup Hdown].
  split.
  - assert (∃ s w', activate_stop demo_clock demo_uuid4 demo_stop w_stopped = (Ok s, w'))
      as (s & w' & Hrun) by (eexists _, _; vm_compute; reflexivity).
    exists s, w'. split; [exact Hrun|]. rewrite (Hup _ _ _ Hrun). vm_compute; reflexivity.
  - assert (∃ s w', release_stop demo_clock demo_uuid4 "STOP-2026-00001" demo_release
                      w_stopped = (Ok s, w'))
      as (s & w' & Hrun) by (eexists _, _; vm_compute; reflexivity).
    exists s, w'. split; [exact Hrun|]. pose proof (Hdown _ _ _ _ Hrun) as Hcount.
    assert (Stats.active_stops (get_stats (db w_stopped)) = 1%nat) as Hone
      by (vm_compute; reflexivity).
    rewrite Hone in Hcount. by injection Hcount.
Defined.

Lemma demo_main_runs_witness :
  ∃ rep w',
    demo_main demo_clock demo_uuid4 (mk_datetime 2026 86400000000) w_released
      = (Ok rep, w')
    ∧ HEvent.status (seen_after_stop rep) = "h_stop_active"
    ∧ HEvent.status (final_event rep) = "resolved"
    ∧ HStop.status (final_stop rep) = "released"
    ∧ Recovery.status (final_recovery rep) = "in_progress"
    ∧ length (observe_logs (db w')) = 9%nat.
Proof.
  destruct (demo_main_runs demo_clock demo_uuid4 w_released (mk_datetime 2026 86400000000)
              w_released_reachable)
    as (rep & w' & news & Hrun & Hseen & Hfinal & Hstop & Hrec & _ & _ & _ & _ & _
        & Hlog & Hnews & _).
  exists rep, w'. repeat (split; [assumption|]).
  rewrite Hlog, length_app. apply (f_equal length) in Hnews.
  rewrite length_fmap in Hnews. rewrite Hnews. vm_compute; reflexivity.
Defined.
